(** * rest_framework_friendly_errors.mixins: FriendlyErrorMessagesMixin

    A shallow embedding of [FriendlyErrorMessagesMixin]
    (src/rest_framework_friendly_errors/mixins.py) and the properties of
    its classification pipeline.

    Python dictionaries whose iteration order matters ([error_messages],
    the raw error map, [fields]) are association lists; dictionaries that
    are only looked up or updated ([kwargs], [registered_errors], the
    catalogs of the settings module) are [gmap]s.  Code that can raise is
    in the [result] monad; the one function that mutates a dictionary it
    was handed ([does_not_exist_many_to_many_handler]) returns the
    dictionary next to its result, and its caller goes on with that
    dictionary. *)

From Stdlib Require Import ZArith Lia Ascii String.
From stdpp Require Import gmap strings list fin_maps pretty.

Set Warnings "-register-all".

Open Scope Z_scope.
Open Scope string_scope.
Open Scope list_scope.

(** ** Python values *)

(** The values a submitted payload, a field attribute or an error code can
    hold.  [PObj] stands for any other object (a float, a [Decimal], an
    uploaded file): its type name, what [str] gives for it and, when it
    has one, its [len]. *)
Inductive pyval : Type :=
  | PNone
  | PBool (b : bool)
  | PInt (z : Z)
  | PStr (s : string)
  | PList (l : list pyval)
  | PDict (d : list (string * pyval))
  | PObj (type_name : string) (str : string) (len : option Z).

(** [type(v).__name__] *)
Definition type_name (v : pyval) : string :=
  match v with
  | PNone => "NoneType"
  | PBool _ => "bool"
  | PInt _ => "int"
  | PStr _ => "str"
  | PList _ => "list"
  | PDict _ => "dict"
  | PObj n _ _ => n
  end.

(** [isinstance(v, list)] *)
Definition is_list (v : pyval) : bool :=
  match v with PList _ => true | _ => false end.

(** Truth value of a Python value, as [or], [not] and [if] take it. *)
Definition truthy (v : pyval) : bool :=
  match v with
  | PNone => false
  | PBool b => b
  | PInt z => negb (z =? 0)%Z
  | PStr s => negb (String.eqb s "")
  | PList l => match l with [] => false | _ => true end
  | PDict d => match d with [] => false | _ => true end
  | PObj _ _ l => match l with Some 0%Z => false | _ => true end
  end.

(** [a or b] *)
Definition py_or (a b : pyval) : pyval := if truthy a then a else b.

Definition str_of_Z (z : Z) : string := pretty z.

(** [repr(v)]; a string is written between single quotes, without the
    escapes Python adds for quotes and control characters. *)
Fixpoint py_repr (v : pyval) : string :=
  match v with
  | PNone => "None"
  | PBool true => "True"
  | PBool false => "False"
  | PInt z => str_of_Z z
  | PStr s => "'" +:+ s +:+ "'"
  | PList l =>
      "[" +:+
      (fix items (l : list pyval) : string :=
         match l with
         | [] => ""
         | [x] => py_repr x
         | x :: r => py_repr x +:+ ", " +:+ items r
         end) l +:+ "]"
  | PDict d =>
      "{" +:+
      (fix items (d : list (string * pyval)) : string :=
         match d with
         | [] => ""
         | [(k, x)] => "'" +:+ k +:+ "': " +:+ py_repr x
         | (k, x) :: r => "'" +:+ k +:+ "': " +:+ py_repr x +:+ ", " +:+ items r
         end) d +:+ "}"
  | PObj _ s _ => s
  end.

(** [str(v)], which is what [%s] and a plain replacement field insert. *)
Definition py_str (v : pyval) : string :=
  match v with
  | PStr s => s
  | _ => py_repr v
  end.

(** [None] for a missing optional attribute or argument. *)
Definition of_option_str (o : option string) : pyval :=
  match o with Some s => PStr s | None => PNone end.

Definition of_option_int (o : option Z) : pyval :=
  match o with Some z => PInt z | None => PNone end.

(** ** Exceptions *)

Inductive exn : Type :=
  | KeyError (key : string)
  | IndexError
  | TypeError
  | AttributeError (attr : string)
  | ValueError (msg : string)
  | ValidationError (detail : string)
  | OtherError.

Inductive result (A : Type) : Type :=
  | Ok (a : A)
  | Raise (e : exn).
Arguments Ok {A} a.
Arguments Raise {A} e.

Definition bind {A B} (r : result A) (k : A -> result B) : result B :=
  match r with
  | Ok a => k a
  | Raise e => Raise e
  end.

Declare Scope result_scope.
Delimit Scope result_scope with result.
Notation "'do' x <- r ; k" := (bind r (fun x => k))
  (at level 10, x pattern, r at level 100, k at level 200) : result_scope.
Open Scope result_scope.

Definition is_ok {A} (r : result A) : bool :=
  match r with Ok _ => true | Raise _ => false end.

(** ** Payload access *)

Fixpoint assoc_get {A} (d : list (string * A)) (k : string) : option A :=
  match d with
  | [] => None
  | (k', v) :: r => if String.eqb k' k then Some v else assoc_get r k
  end.

(** [data.get(name)]: only a dictionary has the method. *)
Definition py_get (data : pyval) (name : string) : result pyval :=
  match data with
  | PDict d => Ok (default PNone (assoc_get d name))
  | _ => Raise (AttributeError "get")
  end.

(** [data.get(name, dflt)] *)
Definition py_get_default (data : pyval) (name : string) (dflt : pyval)
  : result pyval :=
  match data with
  | PDict d => Ok (default dflt (assoc_get d name))
  | _ => Raise (AttributeError "get")
  end.

(** [data[name]] for a string [name] *)
Definition py_getitem (data : pyval) (name : string) : result pyval :=
  match data with
  | PDict d =>
      match assoc_get d name with
      | Some v => Ok v
      | None => Raise (KeyError name)
      end
  | _ => Raise TypeError
  end.

Fixpoint is_prefix (p s : string) : bool :=
  match p, s with
  | EmptyString, _ => true
  | String a p', String b s' => if Ascii.eqb a b then is_prefix p' s' else false
  | String _ _, EmptyString => false
  end.

Fixpoint is_substring (p s : string) : bool :=
  is_prefix p s ||
  match s with
  | EmptyString => false
  | String _ s' => is_substring p s'
  end.

(** [name in data] for a string [name]: a key of a dictionary, an element
    of a list, a substring of a string; the other values are no
    containers. *)
Definition py_contains (data : pyval) (name : string) : result bool :=
  match data with
  | PDict d => Ok (bool_decide (is_Some (assoc_get d name)))
  | PList l =>
      Ok (existsb (fun v => match v with PStr s => String.eqb s name | _ => false end) l)
  | PStr s => Ok (is_substring name s)
  | _ => Raise TypeError
  end.

(** [len(v)] *)
Definition py_len (v : pyval) : result Z :=
  match v with
  | PStr s => Ok (Z.of_nat (String.length s))
  | PList l => Ok (Z.of_nat (length l))
  | PDict d => Ok (Z.of_nat (length d))
  | PObj _ _ (Some n) => Ok n
  | _ => Raise TypeError
  end.

(** ** [str.format] with keyword arguments *)

Abbreviation kwargs_t := (gmap string pyval).

Definition is_digit (c : ascii) : bool :=
  let n := nat_of_ascii c in (48 <=? n)%nat && (n <=? 57)%nat.

Fixpoint all_digits (s : string) : bool :=
  match s with
  | EmptyString => true
  | String c r => is_digit c && all_digits r
  end.

(** The value a replacement field [{name}] inserts: an empty or numeric
    name asks for a positional argument, and none is passed. *)
Definition format_field (name : string) (kwargs : kwargs_t) : result string :=
  if all_digits name then Raise IndexError
  else match kwargs !! name with
       | Some v => Ok (py_str v)
       | None => Raise (KeyError name)
       end.

(** Characters that open a conversion, a format spec, an attribute or an
    index inside a replacement field; such fields are outside the model
    and the formatting fails on them. *)
Definition field_special (c : ascii) : bool :=
  (Ascii.eqb c "{" || Ascii.eqb c "!" || Ascii.eqb c ":" ||
   Ascii.eqb c "." || Ascii.eqb c "[")%char.

(** [fmt s None] formats [s] read from outside a replacement field;
    [fmt s (Some name)] reads on inside a field whose name so far is
    [name]. *)
Fixpoint fmt (kwargs : kwargs_t) (s : string) (field : option string)
  : result string :=
  match s, field with
  | EmptyString, None => Ok ""
  | EmptyString, Some _ => Raise (ValueError "expected '}' before end of string")
  | String c r, None =>
      if Ascii.eqb c "{"%char then
        match r with
        | String "{"%char r' => do t <- fmt kwargs r' None; Ok (String "{"%char t)
        | _ => fmt kwargs r (Some "")
        end
      else if Ascii.eqb c "}"%char then
        match r with
        | String "}"%char r' => do t <- fmt kwargs r' None; Ok (String "}"%char t)
        | _ => Raise (ValueError "Single '}' encountered in format string")
        end
      else do t <- fmt kwargs r None; Ok (String c t)
  | String c r, Some name =>
      if Ascii.eqb c "}"%char then
        do v <- format_field name kwargs;
        do t <- fmt kwargs r None;
        Ok (v +:+ t)
      else if field_special c then Raise (ValueError "unsupported replacement field")
      else fmt kwargs r (Some (name +:+ String c ""))
  end.

(** [unformatted.format] applied to the keyword arguments [kwargs] *)
Definition format (unformatted : string) (kwargs : kwargs_t) : result string :=
  fmt kwargs unformatted None.

(** [unformatted.format] of [kwargs] compared with [message] *)
Definition format_eq (unformatted : string) (kwargs : kwargs_t) (message : string)
  : result bool :=
  do s <- format unformatted kwargs; Ok (String.eqb s message).

(** ** Error entries *)

(** [{'code': .., 'field': .., 'message': ..}] *)
Record Entry : Type := mkEntry {
  code : pyval;
  field : option string;
  message : string
}.

(** What [build_pretty_errors] collects: entries of fields and of the
    non-field bucket, and the wrappers [wrap_nested_errors] builds, whose
    ['errors'] is a list for a single nested record and a list of lists
    for a nested list of records. *)
Inductive PrettyError : Type :=
  | Leaf (e : Entry)
  | Nested (code : pyval) (field : option string) (errors : list PrettyError)
  | NestedMany (code : pyval) (field : option string)
               (errors : list (list PrettyError)).

(** The keys [process_sub_serializer_errors] reads in the dictionary a
    nested serializer's [errors] gives; [None] is a missing key. *)
Record ErrorDict : Type := mkErrorDict {
  ed_errors : option (list PrettyError);
  ed_non_field_errors : option (list string)
}.

(** [serializer.errors] of a nested serializer: a dictionary, or a list
    of them with [many=True]. *)
Inductive SubErrors : Type :=
  | ErrDict (d : ErrorDict)
  | ErrList (l : list ErrorDict).


(** ** Fields, validators and serializers *)

(** What a validator is called with: the submitted value, and the field
    it is declared on (given by its name). *)
Inductive ValidatorArg : Type :=
  | ArgValue (v : pyval)
  | ArgField (name : string).

(** How a call of a validator ends. *)
Inductive Outcome : Type :=
  | Returns
  | RaisesDjango (message : string)      (* DjangoValidationError, [err.message] *)
  | RaisesRest (detail : list string)    (* RestValidationError, [err.detail] *)
  | RaisesOther (e : exn).

Record Validator : Type := mkValidator {
  v_name : string;                 (* [__name__], or the name of its class *)
  v_args : list string;            (* [inspect.getfullargspec(validator).args] *)
  v_call : list ValidatorArg -> Outcome
}.

(** A nested serializer, as far as the parent uses it: [run_errors data]
    is what [is_valid()] followed by [errors] gives once [initial_data]
    is [data]; [get_subclass], when the attribute exists, gives the
    specialised serializer by the outcome of the same two calls on it, or
    [None] when the resolution raises. *)
Record BaseSerializer : Type := mkBaseSerializer {
  run_errors : pyval -> result SubErrors;
  get_subclass : option (pyval -> option (result SubErrors))
}.

(** A field of a serializer.  An optional attribute the code reads with
    [getattr(field, .., None)] is [None] both when it is missing and when
    it is set to [None].  [parent_data] is the value of
    [field.parent.data] at the time [get_field_kwargs] reads it, in the
    file branch only; the framework computes it from the payload, so a
    statement that changes the payload of a field that takes the file
    branch has to change it as well. *)
Inductive Field : Type := mkField {
  class_name : string;                     (* [field.__class__.__name__] *)
  field_name : string;
  error_messages : list (string * string); (* constraint key, template *)
  validators : list Validator;
  child_relation : option Field;
  max_length : option Z;
  min_length : option Z;
  min_value : pyval;
  max_value : pyval;
  decimal_places : option Z;
  max_digits : option Z;
  slug_field : option string;
  source : string;
  parent_data : pyval;                     (* what [field.parent.data] gives *)
  as_serializer : option BaseSerializer    (* [isinstance(field, BaseSerializer)] *)
}.

(** [FieldMap.field_map]: the class names of each category, and for the
    date classes their format. *)
Record FieldMap : Type := mkFieldMap {
  fm_boolean : list string;
  fm_string : list string;
  fm_numeric : list string;
  fm_date : list (string * string);
  fm_choice : list string;
  fm_file : list string;
  fm_composite : list string;
  fm_relation : list string
}.

(** The names the code reads in the [settings] module. *)
Record Settings : Type := mkSettings {
  FRIENDLY_FIELD_ERRORS : gmap string (gmap string pyval);
  FRIENDLY_VALIDATOR_ERRORS : gmap string pyval;
  FRIENDLY_NON_FIELD_ERRORS : gmap string pyval;
  INVALID_DATA_MESSAGE : string;
  VALIDATION_FAILED_CODE : pyval;
  VALIDATION_FAILED_MESSAGE : string
}.

(** A serializer that has the mixin. *)
Record Serializer : Type := mkSerializer {
  field_map : FieldMap;
  FIELD_VALIDATION_ERRORS : gmap string pyval;
  NON_FIELD_ERRORS : gmap string pyval;
  registered_errors : gmap string Entry;
  initial_data : pyval;
  fields : list (string * Field);
  methods : list (string * Validator)      (* the [validate_<field_name>] hooks *)
}.

Definition set_registered_errors (self : Serializer) (r : gmap string Entry)
  : Serializer :=
  {| field_map := field_map self;
     FIELD_VALIDATION_ERRORS := FIELD_VALIDATION_ERRORS self;
     NON_FIELD_ERRORS := NON_FIELD_ERRORS self;
     registered_errors := r;
     initial_data := initial_data self;
     fields := fields self;
     methods := methods self |}.

(** [d.get(k)] on a catalog: [None] when the key is missing. *)
Definition dict_get (d : gmap string pyval) (k : string) : pyval :=
  default PNone (d !! k).

(** [d.get(key)] where [key] may be [None], which is no key of a catalog. *)
Definition dict_get_opt (d : gmap string pyval) (key : option string) : pyval :=
  match key with
  | Some k => dict_get d k
  | None => PNone
  end.

Definition is_none (v : pyval) : bool :=
  match v with PNone => true | _ => false end.

Definition in_names (x : string) (l : list string) : bool :=
  existsb (String.eqb x) l.

Definition dquote : string := String (ascii_of_nat 34) "".

Fixpoint map_result {A B} (f : A -> result B) (l : list A) : result (list B) :=
  match l with
  | [] => Ok []
  | x :: r => do y <- f x; do ys <- map_result f r; Ok (y :: ys)
  end.

(** What the final envelope of [build_pretty_errors] is. *)
Inductive PrettyDict : Type :=
  | EmptyDict
  | Envelope (code : pyval) (message : string) (errors : list PrettyError).

(** ** The mixin *)

Section Mixin.

Variable settings : Settings.

(** [register_error] never returns: it ends in a [ValueError] for a wrong
    call, and otherwise stores the entry and raises the validation error
    that carries the key.  The result is the serializer afterwards and
    the exception raised. *)
Definition register_error (self : Serializer) (error_message : string)
    (field_name : option string) (error_key : option string)
    (error_code : pyval) : Serializer * exn :=
  let error : result (pyval * Entry) :=
    match field_name with
    | None =>
        if is_none error_code then
          Raise (ValueError "For non field error you must provide an error code")
        else
          Ok (error_code,
              {| code := error_code; message := error_message; field := None |})
    | Some name =>
        match assoc_get (fields self) name with
        | None => Raise (ValueError "Incorrect field name")
        | Some field_instance =>
            let field_type := class_name field_instance in
            if bool_decide (error_key = None) && is_none error_code then
              Raise (ValueError "You have to provide either error key or error code")
            else
              do error_code <-
                (if negb (is_none error_code) then Ok error_code
                 else
                   match FRIENDLY_FIELD_ERRORS settings !! field_type with
                   | None =>
                       Raise (ValueError ("Unknown field type: " +:+ dquote
                                          +:+ field_type +:+ dquote))
                   | Some catalog =>
                       let error_code := dict_get_opt catalog error_key in
                       if is_none error_code then
                         Raise (ValueError
                                  ("Unknown error key: " +:+ dquote
                                   +:+ py_str (of_option_str error_key) +:+ dquote
                                   +:+ " for field type: " +:+ dquote
                                   +:+ field_type +:+ dquote))
                       else Ok error_code
                   end);
              Ok (error_code,
                  {| code := error_code; field := Some name;
                     message := error_message |})
        end
    end in
  match error with
  | Raise e => (self, e)
  | Ok (error_code, error) =>
      let key := error_message +:+ "_" +:+ py_str error_code +:+ "_"
                 +:+ py_str (of_option_str field_name) in
      (set_registered_errors self (<[key := error]> (registered_errors self)),
       ValidationError key)
  end.

Definition get_field_kwargs (self : Serializer) (field : Field)
    (field_data : pyval) : result kwargs_t :=
  let field_type := class_name field in
  let fm := field_map self in
  let kwargs : kwargs_t :=
    <["input_type" := PStr (type_name field_data)]>
      (<["data_type" := PStr (type_name field_data)]> ∅) in
  if in_names field_type (fm_boolean fm) then
    Ok (<["input" := field_data]> kwargs)
  else if in_names field_type (fm_string fm) then
    Ok (<["value" := field_data]>
          (<["min_length" := of_option_int (min_length field)]>
             (<["max_length" := of_option_int (max_length field)]> kwargs)))
  else if in_names field_type (fm_numeric fm) then
    let kwargs :=
      <["max_digits" := of_option_int (max_digits field)]>
        (<["max_decimal_places" := of_option_int (decimal_places field)]>
           (<["decimal_places" := of_option_int (decimal_places field)]>
              (<["max_value" := max_value field]>
                 (<["min_value" := min_value field]> kwargs)))) in
    match max_digits field, decimal_places field with
    | Some max_digits, Some decimal_places =>
        let whole_digits := (max_digits - decimal_places)%Z in
        Ok (<["max_whole_digits" := PInt whole_digits]> kwargs)
    | _, _ => Ok kwargs
    end
  else if in_names field_type (fm_date fm).*1 then
    Ok (<["format" := of_option_str (assoc_get (fm_date fm) field_type)]> kwargs)
  else if in_names field_type (fm_choice fm) then
    Ok (<["input_type" := PStr (type_name field_data)]>
          (<["input" := field_data]> kwargs))
  else if in_names field_type (fm_file fm) then
    do submitted <- py_get_default (parent_data field) (source field) (PStr "");
    do length <- py_len submitted;
    Ok (<["length" := PInt length]>
          (<["max_length" := of_option_int (max_length field)]> kwargs))
  else if in_names field_type (fm_composite fm) then
    Ok (<["min_length" := of_option_int (min_length field)]>
          (<["max_length" := of_option_int (max_length field)]>
             (<["input_type" := PStr (type_name field_data)]> kwargs)))
  else if in_names field_type (fm_relation fm) then
    Ok (<["value" := field_data]>
          (<["slug_name" := of_option_str (slug_field field)]>
             (<["input_type" := PStr (type_name field_data)]>
                (<["data_type" := PStr (type_name field_data)]>
                   (<["pk_value" := field_data]> kwargs)))))
  else
    Ok (<["max_length" := of_option_int (max_length field)]> kwargs).

(** The loop of the handler.  [new_kwargs] is the dictionary of the
    caller: each turn rebinds its ['value'], and the dictionary as the
    loop leaves it is returned with the answer. *)
Fixpoint handler_loop (unformatted message : string) (values : list pyval)
    (new_kwargs : kwargs_t) : result (bool * kwargs_t) :=
  match values with
  | [] => Ok (false, new_kwargs)
  | value :: rest =>
      let new_kwargs := <["value" := value]> new_kwargs in
      do same <- format_eq unformatted new_kwargs message;
      if (same : bool) then Ok (true, new_kwargs)
      else handler_loop unformatted message rest new_kwargs
  end.

(** [for value in v] *)
Definition py_iter (v : pyval) : result (list pyval) :=
  match v with
  | PList l => Ok l
  | PStr s => Ok ((fun c => PStr (String c "")) <$> list_ascii_of_string s)
  | PDict d => Ok ((fun kv => PStr kv.1) <$> d)
  | _ => Raise TypeError
  end.

Definition does_not_exist_many_to_many_handler (self : Serializer)
    (field : Field) (message : string) (kwargs : kwargs_t)
  : result (bool * kwargs_t) :=
  match assoc_get (error_messages field) "does_not_exist" with
  | None => Raise (KeyError "does_not_exist")
  | Some unformatted =>
      match kwargs !! "value" with
      | None => Raise (KeyError "value")
      | Some v =>
          do values <- py_iter v;
          handler_loop unformatted message values kwargs
      end
  end.

(** The [for key in field.error_messages] loop of [find_key], from the
    keys [items] that are left and the current [kwargs]. *)
Fixpoint find_key_loop (self : Serializer) (field : Field) (message : string)
    (items : list (string * string)) (kwargs : kwargs_t)
  : result (option string) :=
  match items with
  | [] => Ok None
  | (key, unformatted) :: rest =>
      do (hit, kwargs) <-
        (if String.eqb key "does_not_exist"
            && is_list (default PNone (kwargs !! "value"))
         then does_not_exist_many_to_many_handler self field message kwargs
         else Ok (false, kwargs));
      if (hit : bool) then Ok (Some key)
      else
        do same <- format_eq unformatted kwargs message;
        if (same : bool) then Ok (Some key)
        else find_key_loop self field message rest kwargs
  end.

Fixpoint find_key (self : Serializer) (field : Field) (message : string)
    (field_name : string) : result (option string) :=
  do field_data <- py_get (initial_data self) field_name;
  do kwargs <- get_field_kwargs self field field_data;
  do key <- find_key_loop self field message (error_messages field) kwargs;
  match key with
  | Some key => Ok (Some key)
  | None =>
      match field with
      | mkField _ _ _ _ (Some child) _ _ _ _ _ _ _ _ _ _ =>
          find_key self child message field_name
      | _ => Ok None
      end
  end.

(** [_run_validator]: [None] when the validator raises nothing, and else
    whether the message it raised is [message].  Only the two validation
    errors are caught. *)
Definition _run_validator (self : Serializer) (validator : Validator)
    (field : Field) (message : string) : result pyval :=
  let validator_expected_args := v_args validator in
  do value_args <-
    (if in_names "value" validator_expected_args then
       do value <- py_getitem (initial_data self) (field_name field);
       Ok [ArgValue value]
     else Ok []);
  let field_args :=
    if in_names "serializer_field" validator_expected_args
    then [ArgField (field_name field)] else [] in
  match v_call validator (value_args ++ field_args) with
  | Returns => Ok PNone
  | RaisesDjango err_message => Ok (PBool (String.eqb err_message message))
  | RaisesRest detail =>
      match detail with
      | err_message :: _ => Ok (PBool (String.eqb err_message message))
      | [] => Raise IndexError
      end
  | RaisesOther e => Raise e
  end.

Fixpoint find_validator_loop (self : Serializer) (field : Field)
    (message : string) (vs : list Validator) : result (option Validator) :=
  match vs with
  | [] => Ok None
  | validator :: rest =>
      do r <- _run_validator self validator field message;
      if truthy r then Ok (Some validator)
      else find_validator_loop self field message rest
  end.

Definition find_validator (self : Serializer) (field : Field)
    (message : string) : result (option Validator) :=
  find_validator_loop self field message (validators field).

(** [not key] for the result of [find_key] *)
Definition not_key (key : option string) : bool :=
  negb (truthy (of_option_str key)).

(** [self.FIELD_VALIDATION_ERRORS.get(name) or
     settings.FRIENDLY_VALIDATOR_ERRORS.get(name)] *)
Definition validator_code (self : Serializer) (name : string) : pyval :=
  py_or (dict_get (FIELD_VALIDATION_ERRORS self) name)
        (dict_get (FRIENDLY_VALIDATOR_ERRORS settings) name).

(** [settings.FRIENDLY_FIELD_ERRORS.get(field_type, {}).get(key)] *)
Definition field_code (field_type : string) (key : option string) : pyval :=
  dict_get_opt (default ∅ (FRIENDLY_FIELD_ERRORS settings !! field_type)) key.

Definition get_field_error_entry (self : Serializer) (error : string)
    (field : Field) : result Entry :=
  match registered_errors self !! error with
  | Some e => Ok e
  | None =>
      let field_type := class_name field in
      do key <- find_key self field error (field_name field);
      let last :=
        Ok {| code := field_code field_type key;
              field := Some (field_name field);
              message := error |} in
      if not_key key then
        do validator <- find_validator self field error;
        match validator with
        | Some validator =>
            let name := v_name validator in
            let code := validator_code self name in
            Ok {| code := code; field := Some (field_name field);
                  message := error |}
        | None =>
            match assoc_get (methods self) ("validate_" +:+ field_name field) with
            | Some validator =>
                do r <- _run_validator self validator field error;
                if truthy r then
                  let name := v_name validator in
                  let code := validator_code self name in
                  Ok {| code := code; field := Some (field_name field);
                        message := error |}
                else last
            | None => last
            end
        end
      else last
  end.

Definition get_field_error_entries (self : Serializer) (errors : list string)
    (field : Field) : result (list Entry) :=
  map_result (fun error => get_field_error_entry self error field) errors.

Definition get_non_field_error_entry (self : Serializer) (error : string)
  : result Entry :=
  match registered_errors self !! error with
  | Some e => Ok e
  | None =>
      do same <- format_eq (INVALID_DATA_MESSAGE settings)
                   {[ "data_type" := PStr (type_name (initial_data self)) ]}
                   error;
      if (same : bool) then
        Ok {| code := dict_get (FRIENDLY_NON_FIELD_ERRORS settings) "invalid";
              field := None; message := error |}
      else
        let code := py_or (dict_get (NON_FIELD_ERRORS self) error)
                          (dict_get (FRIENDLY_NON_FIELD_ERRORS settings) error) in
        Ok {| code := code; field := None; message := error |}
  end.

Definition get_non_field_error_entries (self : Serializer)
    (errors : list string) : result (list Entry) :=
  map_result (get_non_field_error_entry self) errors.

Definition wrap_nested_errors (code : pyval) (errors : list PrettyError)
    (field_name : string) : PrettyError :=
  Nested code (Some field_name) errors.

(** [wrap_nested_errors] when its [errors] is the list of lists that
    [process_sub_serializer] builds for [many=True]. *)
Definition wrap_nested_errors_many (code : pyval)
    (errors : list (list PrettyError)) (field_name : string) : PrettyError :=
  NestedMany code (Some field_name) errors.

Definition get_sub_serializer_errors (self : Serializer)
    (serializer : BaseSerializer) (error_type : string) : result SubErrors :=
  do data <- py_get (initial_data self) error_type;
  match get_subclass serializer with
  | Some resolve =>
      match resolve data with
      | Some specialised => specialised
      | None => run_errors serializer data
      end
  | None => run_errors serializer data
  end.

(** [sub_error['field']] *)
Definition error_field (e : PrettyError) : option string :=
  match e with
  | Leaf e => field e
  | Nested _ f _ => f
  | NestedMany _ f _ => f
  end.

(** [sub_error['field'] = name] *)
Definition set_error_field (name : string) (e : PrettyError) : PrettyError :=
  match e with
  | Leaf e => Leaf {| code := code e; field := Some name; message := message e |}
  | Nested c _ errs => Nested c (Some name) errs
  | NestedMany c _ errs => NestedMany c (Some name) errs
  end.

(** The body of the loop of [process_sub_serializer_errors]: an entry
    without a field gets the name of the parent field. *)
Definition default_field (error_type : string) (sub_error : PrettyError)
  : PrettyError :=
  if bool_decide (error_field sub_error = None)
  then set_error_field error_type sub_error
  else sub_error.

Definition process_sub_serializer_errors (self : Serializer)
    (serializer_error_dict : ErrorDict) (error_type : string)
  : result (list PrettyError) :=
  let sub_serializer_errors := default [] (ed_errors serializer_error_dict) in
  let sub_serializer_non_field_errors := ed_non_field_errors serializer_error_dict in
  let result := default_field error_type <$> sub_serializer_errors in
  match sub_serializer_non_field_errors with
  | Some non_field_errors =>
      do entries <- get_non_field_error_entries self non_field_errors;
      Ok (result ++ (Leaf <$> entries))
  | None => Ok result
  end.

(** The list [pretty] is passed in and appended to; the new list is the
    result. *)
Definition process_sub_serializer (self : Serializer) (pretty : list PrettyError)
    (serializer : BaseSerializer) (error_type : string)
  : result (list PrettyError) :=
  do field_errors <- get_sub_serializer_errors self serializer error_type;
  match field_errors with
  | ErrList field_errors =>
      do list_errors <-
        map_result (fun inner_field_errors =>
                      process_sub_serializer_errors self inner_field_errors error_type)
                   field_errors;
      Ok (pretty ++ [wrap_nested_errors_many (PInt 2902) list_errors error_type])
  | ErrDict field_errors =>
      do sub_serializer_errors <-
        process_sub_serializer_errors self field_errors error_type;
      Ok (pretty ++ [wrap_nested_errors (PInt 2901) sub_serializer_errors error_type])
  end.

(** The test [isinstance(field, BaseSerializer) and error_type in
    self.initial_data] of [build_pretty_errors]; when it holds, the field
    as the serializer it is. *)
Definition enters_nested (self : Serializer) (field : Field)
    (error_type : string) : result (option BaseSerializer) :=
  match as_serializer field with
  | Some serializer =>
      do present <- py_contains (initial_data self) error_type;
      Ok (if (present : bool) then Some serializer else None)
  | None => Ok None
  end.

(** One turn of the loop of [build_pretty_errors], over one entry of the
    raw error map: its key and the messages under it (for a nested
    serializer that was submitted the framework puts a dictionary there,
    which the code does not read).  The raw error maps considered are
    those whose other values are lists of messages; a dictionary keyed by
    index or by name, as the framework puts under a list or dictionary
    field with a failing element, is outside them. *)
Definition build_pretty_step (self : Serializer) (pretty : list PrettyError)
    (error_type : string) (messages : list string) : result (list PrettyError) :=
  if String.eqb error_type "non_field_errors" then
    do entries <- get_non_field_error_entries self messages;
    Ok (pretty ++ (Leaf <$> entries))
  else
    match assoc_get (fields self) error_type with
    | None => Raise (KeyError error_type)
    | Some field =>
        do nested <- enters_nested self field error_type;
        match nested with
        | Some serializer => process_sub_serializer self pretty serializer error_type
        | None =>
            do entries <- get_field_error_entries self messages field;
            Ok (pretty ++ (Leaf <$> entries))
        end
    end.

Fixpoint build_pretty_loop (self : Serializer) (pretty : list PrettyError)
    (errors : list (string * list string)) : result (list PrettyError) :=
  match errors with
  | [] => Ok pretty
  | (error_type, messages) :: rest =>
      do pretty <- build_pretty_step self pretty error_type messages;
      build_pretty_loop self pretty rest
  end.

Definition build_pretty_errors (self : Serializer)
    (errors : list (string * list string)) : result PrettyDict :=
  do pretty <- build_pretty_loop self [] errors;
  match pretty with
  | [] => Ok EmptyDict
  | _ => Ok (Envelope (VALIDATION_FAILED_CODE settings)
                      (VALIDATION_FAILED_MESSAGE settings) pretty)
  end.

(** The [errors] property, from what the property of the parent class
    gives. *)
Definition errors (self : Serializer) (ugly_errors : list (string * list string))
  : result PrettyDict :=
  build_pretty_errors self ugly_errors.

End Mixin.

(** The dictionary of [errors] as [process_sub_serializer_errors] reads
    it: the envelope has an ['errors'] key and no ['non_field_errors']
    key, the empty dictionary has neither. *)
Definition as_error_dict (p : PrettyDict) : ErrorDict :=
  match p with
  | EmptyDict => {| ed_errors := None; ed_non_field_errors := None |}
  | Envelope _ _ errs => {| ed_errors := Some errs; ed_non_field_errors := None |}
  end.

Definition set_initial_data (self : Serializer) (data : pyval) : Serializer :=
  {| field_map := field_map self;
     FIELD_VALIDATION_ERRORS := FIELD_VALIDATION_ERRORS self;
     NON_FIELD_ERRORS := NON_FIELD_ERRORS self;
     registered_errors := registered_errors self;
     initial_data := data;
     fields := fields self;
     methods := methods self |}.

(** A nested serializer that has the mixin itself, with [many=False]:
    once its [initial_data] is assigned, [is_valid()] leaves the raw
    errors [validation data], and [errors] classifies them. *)
Definition friendly_nested (settings : Settings) (child : Serializer)
    (validation : pyval -> list (string * list string)) : BaseSerializer :=
  {| run_errors data :=
       do pretty <- errors settings (set_initial_data child data) (validation data);
       Ok (ErrDict (as_error_dict pretty));
     get_subclass := None |}.

(** ** Concrete serializers *)

(** Fields, settings and serializers with the class names, constraint keys
    and templates of Django REST framework, on which the statements below
    are evaluated. *)
Module Fixtures.

Definition drf_field_map : FieldMap :=
  {| fm_boolean := ["BooleanField"; "NullBooleanField"];
     fm_string := ["CharField"; "EmailField"; "RegexField"; "SlugField";
                   "URLField"; "UUIDField"; "FilePathField"; "IPAddressField"];
     fm_numeric := ["IntegerField"; "FloatField"; "DecimalField"];
     fm_date := [("DateTimeField", "iso-8601"); ("DateField", "iso-8601");
                 ("TimeField", "iso-8601");
                 ("DurationField", "[DD] [HH:[MM:]]ss[.uuuuuu]")];
     fm_choice := ["ChoiceField"; "MultipleChoiceField"];
     fm_file := ["FileField"; "ImageField"];
     fm_composite := ["ListField"; "DictField"; "JSONField"];
     fm_relation := ["StringRelatedField"; "PrimaryKeyRelatedField";
                     "HyperlinkedRelatedField"; "SlugRelatedField";
                     "HyperlinkedIdentityField"; "ManyRelatedField"] |}.

Definition catalog (l : list (string * Z)) : gmap string pyval :=
  list_to_map ((fun kc => (kc.1, PInt kc.2)) <$> l).

Definition the_settings : Settings :=
  {| FRIENDLY_FIELD_ERRORS :=
       list_to_map
         [("CharField", catalog [("required", 2007); ("null", 2027);
                                 ("blank", 2031); ("max_length", 2041);
                                 ("min_length", 2051)]);
          ("DecimalField", catalog [("required", 2007); ("invalid", 2091);
                                    ("max_digits", 2101);
                                    ("max_whole_digits", 2121)]);
          ("DateTimeField", catalog [("required", 2007); ("invalid", 2131);
                                     ("date", 2141)]);
          ("SlugRelatedField", catalog [("required", 2007);
                                        ("does_not_exist", 2151);
                                        ("invalid", 2161)]);
          ("ManyRelatedField", catalog [("not_a_list", 2171); ("empty", 2181)])];
     FRIENDLY_VALIDATOR_ERRORS :=
       catalog [("UniqueValidator", 3001); ("RegexValidator", 3002)];
     FRIENDLY_NON_FIELD_ERRORS := catalog [("invalid", 1001)];
     INVALID_DATA_MESSAGE := "Invalid data. Expected a dictionary, but got {data_type}.";
     VALIDATION_FAILED_CODE := PInt 1000;
     VALIDATION_FAILED_MESSAGE := "Validation Failed" |}.

(** A field of class [cls] with the constraint templates [msgs] and
    nothing else set. *)
Definition plain_field (cls name : string) (msgs : list (string * string))
  : Field :=
  {| class_name := cls; field_name := name; error_messages := msgs;
     validators := []; child_relation := None;
     max_length := None; min_length := None;
     min_value := PNone; max_value := PNone;
     decimal_places := None; max_digits := None;
     slug_field := None; source := name; parent_data := PDict [];
     as_serializer := None |}.

Definition with_validators (f : Field) (vs : list Validator) : Field :=
  {| class_name := class_name f; field_name := field_name f;
     error_messages := error_messages f;
     validators := vs; child_relation := child_relation f;
     max_length := max_length f; min_length := min_length f;
     min_value := min_value f; max_value := max_value f;
     decimal_places := decimal_places f; max_digits := max_digits f;
     slug_field := slug_field f; source := source f;
     parent_data := parent_data f; as_serializer := as_serializer f |}.

Definition with_serializer (f : Field) (b : BaseSerializer) : Field :=
  {| class_name := class_name f; field_name := field_name f;
     error_messages := error_messages f;
     validators := validators f; child_relation := child_relation f;
     max_length := max_length f; min_length := min_length f;
     min_value := min_value f; max_value := max_value f;
     decimal_places := decimal_places f; max_digits := max_digits f;
     slug_field := slug_field f; source := source f;
     parent_data := parent_data f; as_serializer := Some b |}.

Definition base_messages : list (string * string) :=
  [("required", "This field is required.");
   ("null", "This field may not be null.")].

(** [serializers.CharField(max_length=10)] *)
Definition name_field : Field :=
  {| class_name := "CharField"; field_name := "name";
     error_messages :=
       base_messages ++
       [("invalid", "Not a valid string.");
        ("blank", "This field may not be blank.");
        ("max_length", "Ensure this field has no more than {max_length} characters.");
        ("min_length", "Ensure this field has at least {min_length} characters.")];
     validators := []; child_relation := None;
     max_length := Some 10; min_length := None;
     min_value := PNone; max_value := PNone;
     decimal_places := None; max_digits := None;
     slug_field := None; source := "name"; parent_data := PDict [];
     as_serializer := None |}.

(** [serializers.DecimalField(max_digits=5, decimal_places=2)] *)
Definition price_field : Field :=
  {| class_name := "DecimalField"; field_name := "price";
     error_messages :=
       base_messages ++
       [("invalid", "A valid number is required.");
        ("max_digits", "Ensure that there are no more than {max_digits} digits in total.");
        ("max_whole_digits",
         "Ensure that there are no more than {max_whole_digits} digits before the decimal point.")];
     validators := []; child_relation := None;
     max_length := None; min_length := None;
     min_value := PInt 0; max_value := PNone;
     decimal_places := Some 2; max_digits := Some 5;
     slug_field := None; source := "price"; parent_data := PDict [];
     as_serializer := None |}.

(** [serializers.DateTimeField()]; the template of [make_aware] names the
    time zone. *)
Definition when_field : Field :=
  plain_field "DateTimeField" "when"
    (base_messages ++
     [("invalid", "Datetime has wrong format. Use one of these formats instead: {format}.");
      ("date", "Expected a datetime but got a date.");
      ("make_aware",
       "Invalid datetime for the timezone " +:+ dquote +:+ "{timezone}"
       +:+ dquote +:+ ".");
      ("overflow", "Datetime value out of range.")]).

(** [serializers.SlugRelatedField(slug_field='slug', ..)] *)
Definition tag_field : Field :=
  {| class_name := "SlugRelatedField"; field_name := "tags";
     error_messages :=
       base_messages ++
       [("does_not_exist", "Object with {slug_name}={value} does not exist.");
        ("invalid", "Invalid value.")];
     validators := []; child_relation := None;
     max_length := None; min_length := None;
     min_value := PNone; max_value := PNone;
     decimal_places := None; max_digits := None;
     slug_field := Some "slug"; source := "tags"; parent_data := PDict [];
     as_serializer := None |}.

(** The same with [many=True]: a [ManyRelatedField] around it. *)
Definition tags_field : Field :=
  {| class_name := "ManyRelatedField"; field_name := "tags";
     error_messages :=
       base_messages ++
       [("not_a_list",
         "Expected a list of items but got type " +:+ dquote +:+ "{input_type}"
         +:+ dquote +:+ ".");
        ("empty", "This list may not be empty.")];
     validators := []; child_relation := Some tag_field;
     max_length := None; min_length := None;
     min_value := PNone; max_value := PNone;
     decimal_places := None; max_digits := None;
     slug_field := None; source := "tags"; parent_data := PDict [];
     as_serializer := None |}.

(** A relation field whose [invalid] template shows the submitted value
    and is declared after [does_not_exist]. *)
Definition echo_field : Field :=
  {| class_name := "SlugRelatedField"; field_name := "tags";
     error_messages :=
       [("does_not_exist", "Object with {slug_name}={value} does not exist.");
        ("invalid", "Invalid value {value}.")];
     validators := []; child_relation := None;
     max_length := None; min_length := None;
     min_value := PNone; max_value := PNone;
     decimal_places := None; max_digits := None;
     slug_field := Some "slug"; source := "tags"; parent_data := PDict [];
     as_serializer := None |}.

Definition serializer_of (data : pyval) (fs : list Field) : Serializer :=
  {| field_map := drf_field_map;
     FIELD_VALIDATION_ERRORS := ∅;
     NON_FIELD_ERRORS := ∅;
     registered_errors := ∅;
     initial_data := data;
     fields := (fun f => (field_name f, f)) <$> fs;
     methods := [] |}.

(** A submitted payload and a serializer over the fields above. *)
Definition payload : pyval :=
  PDict [("name", PStr "abcdefghijklmnop");
         ("price", PStr "abc");
         ("when", PStr "10000-01-01T00:00:00Z");
         ("tags", PList [PStr "a"; PStr "b"])].

Definition shop : Serializer :=
  serializer_of payload [name_field; price_field; when_field; tags_field].

(** The kwargs [find_key] reconstructs for a relation field under
    ["tags"]. *)
Definition tags_kwargs : kwargs_t :=
  <["value" := PList [PStr "a"; PStr "b"]]>
    (<["slug_name" := PStr "slug"]>
       (<["input_type" := PStr "list"]>
          (<["data_type" := PStr "list"]>
             (<["pk_value" := PList [PStr "a"; PStr "b"]]> ∅)))).

(** A validator class that asks for the value and the field, and a
    [validate_email] method of the serializer. *)
Definition unique_validator : Validator :=
  {| v_name := "UniqueValidator";
     v_args := ["self"; "value"; "serializer_field"];
     v_call args :=
       match args with
       | ArgValue (PStr "taken@example.com") :: _ =>
           RaisesRest ["This field must be unique."]
       | _ => Returns
       end |}.

Definition validate_email : Validator :=
  {| v_name := "validate_email";
     v_args := ["self"; "value"];
     v_call args :=
       match args with
       | ArgValue (PStr "root@example.com") :: _ =>
           RaisesRest ["This address is reserved."]
       | _ => Returns
       end |}.

Definition email_field : Field :=
  with_validators
    (plain_field "EmailField" "email"
       (base_messages ++ [("invalid", "Enter a valid email address.")]))
    [unique_validator].

Definition accounts (email : string) : Serializer :=
  {| field_map := drf_field_map;
     FIELD_VALIDATION_ERRORS := catalog [("validate_email", 5001)];
     NON_FIELD_ERRORS := ∅;
     registered_errors := ∅;
     initial_data := PDict [("email", PStr email)];
     fields := [("email", email_field)];
     methods := [("validate_email", validate_email)] |}.

(** A nested serializer with the mixin under ["profile"]: its own
    validation asks for ["name"]. *)
Definition profile_validation (data : pyval) : list (string * list string) :=
  match data with
  | PDict d =>
      match assoc_get d "name" with
      | Some _ => []
      | None => [("name", ["This field is required."])]
      end
  | _ => [("non_field_errors",
           ["Invalid data. Expected a dictionary, but got " +:+ type_name data +:+ "."])]
  end.

Definition profile_field : Field :=
  with_serializer
    (plain_field "ProfileSerializer" "profile"
       (base_messages ++
        [("invalid", "Invalid data. Expected a dictionary, but got {datatype}.")]))
    (friendly_nested the_settings (serializer_of PNone [name_field])
       profile_validation).

Definition order (data : pyval) : Serializer :=
  serializer_of data [name_field; when_field; profile_field].

End Fixtures.

(** ** Predicates of the statements *)

(** The numeric branch of [get_field_kwargs] is the one taken: the class
    of the field is a numeric one, and none of the categories tested
    before it. *)
Definition numeric_typed (self : Serializer) (field : Field) : bool :=
  negb (in_names (class_name field) (fm_boolean (field_map self)))
  && negb (in_names (class_name field) (fm_string (field_map self)))
  && in_names (class_name field) (fm_numeric (field_map self)).

(** The relation branch of [get_field_kwargs] is the one taken. *)
Definition relation_typed (self : Serializer) (field : Field) : bool :=
  let ty := class_name field in
  let fm := field_map self in
  negb (in_names ty (fm_boolean fm))
  && negb (in_names ty (fm_string fm))
  && negb (in_names ty (fm_numeric fm))
  && negb (in_names ty (fm_date fm).*1)
  && negb (in_names ty (fm_choice fm))
  && negb (in_names ty (fm_file fm))
  && negb (in_names ty (fm_composite fm))
  && in_names ty (fm_relation fm).

(** The kwargs [find_key] reconstructs for [field] from the value
    submitted under [name]. *)
Definition reconstructed (self : Serializer) (field : Field) (name : string)
  : result kwargs_t :=
  do field_data <- py_get (initial_data self) name;
  get_field_kwargs self field field_data.

(** The template formats to the message. *)
Definition template_matches (unformatted : string) (kwargs : kwargs_t)
    (message : string) : bool :=
  match format unformatted kwargs with
  | Ok s => String.eqb s message
  | Raise _ => false
  end.

(** The template formats to the message once [v] is the ['value']. *)
Definition element_matches (unformatted : string) (kwargs : kwargs_t)
    (message : string) (v : pyval) : bool :=
  template_matches unformatted (<["value" := v]> kwargs) message.

(** The loop of [find_key] without the many-to-many test: every template
    is formatted with the same kwargs. *)
Fixpoint plain_loop (message : string) (items : list (string * string))
    (kwargs : kwargs_t) : result (option string) :=
  match items with
  | [] => Ok None
  | (key, unformatted) :: rest =>
      do same <- format_eq unformatted kwargs message;
      if (same : bool) then Ok (Some key) else plain_loop message rest kwargs
  end.

(** The matcher as the specification words it for one key: the template
    formatted with the reconstructed kwargs is the message. *)
Fixpoint first_formatted (message : string) (items : list (string * string))
    (kwargs : kwargs_t) : option string :=
  match items with
  | [] => None
  | (key, unformatted) :: rest =>
      if template_matches unformatted kwargs message then Some key
      else first_formatted message rest kwargs
  end.

(** The template matcher in the words of the specification, without the
    many-to-many case: the first key in declared order whose template
    formats to the message, then the child relation, else nothing. *)
Fixpoint matcher_as_stated (self : Serializer) (field : Field)
    (message name : string) : option string :=
  match reconstructed self field name with
  | Raise _ => None
  | Ok kwargs =>
      match first_formatted message (error_messages field) kwargs with
      | Some key => Some key
      | None =>
          match field with
          | mkField _ _ _ _ (Some child) _ _ _ _ _ _ _ _ _ _ =>
              matcher_as_stated self child message name
          | _ => None
          end
      end
  end.

(** The keys of a dictionary are distinct. *)
Definition distinct_keys (items : list (string * string)) : bool :=
  bool_decide (NoDup items.*1).

#[global] Instance exn_eq_dec : EqDecision exn.
Proof. solve_decision. Defined.

#[global] Instance result_eq_dec {A} `{EqDecision A} : EqDecision (result A).
Proof. solve_decision. Defined.

(** The many-to-many test in the words of the specification: the
    elements of the list are put, one after the other, in the place of
    the list, until the template formats to the message.  The kwargs of
    the caller are not touched. *)
Fixpoint any_element (unformatted : string) (kwargs : kwargs_t)
    (message : string) (values : list pyval) : result bool :=
  match values with
  | [] => Ok false
  | value :: rest =>
      do same <- format_eq unformatted (<["value" := value]> kwargs) message;
      if (same : bool) then Ok true
      else any_element unformatted kwargs message rest
  end.

(** What the test of one key gives, with the kwargs reconstructed for the
    field: for [does_not_exist] and a list under ['value'] first the
    many-to-many test, and then, as for every key, whether the template
    formats to the message.  It raises what the formatting raises. *)
Definition key_outcome (key unformatted : string) (kwargs : kwargs_t)
    (message : string) : result bool :=
  do hit <-
    (if String.eqb key "does_not_exist" then
       match kwargs !! "value" with
       | Some (PList values) => any_element unformatted kwargs message values
       | _ => Ok false
       end
     else Ok false);
  if (hit : bool) then Ok true else format_eq unformatted kwargs message.

(** The pass over the keys in the words of the specification: the first
    key, in declared order, whose test succeeds; the exception of the
    first test that raises, when no key before it succeeds. *)
Fixpoint first_match_result (message : string) (items : list (string * string))
    (kwargs : kwargs_t) : result (option string) :=
  match items with
  | [] => Ok None
  | (key, unformatted) :: rest =>
      do hit <- key_outcome key unformatted kwargs message;
      if (hit : bool) then Ok (Some key)
      else first_match_result message rest kwargs
  end.

(** The template matcher in the words of the specification, with the
    many-to-many case and with what it raises: the pass over the keys of
    the field, then the child relation. *)
Fixpoint matcher_result (self : Serializer) (field : Field)
    (message name : string) : result (option string) :=
  do kwargs <- reconstructed self field name;
  do key <- first_match_result message (error_messages field) kwargs;
  match key with
  | Some key => Ok (Some key)
  | None =>
      match field with
      | mkField _ _ _ _ (Some child) _ _ _ _ _ _ _ _ _ _ =>
          matcher_result self child message name
      | _ => Ok None
      end
  end.

(** From here to the first template that formats to the message, or
    that raises, every template gives with [kwargs'] what it gives with
    [kwargs]. *)
Fixpoint after_miss (message : string) (items : list (string * string))
    (kwargs kwargs' : kwargs_t) : bool :=
  match items with
  | [] => true
  | (_, unformatted) :: rest =>
      bool_decide (format_eq unformatted kwargs' message
                   = format_eq unformatted kwargs message)
      && match format_eq unformatted kwargs message with
         | Ok false => after_miss message rest kwargs kwargs'
         | _ => true
         end
  end.

(** The rebinding of ['value'] by the handler changes nothing in the
    pass: either the handler does not miss on a list that is not empty
    before the pass ends, or, from its miss on, the templates examined
    give with the last element under ['value'] what they give with the
    list. *)
Fixpoint alias_inert (message : string) (items : list (string * string))
    (kwargs : kwargs_t) : bool :=
  match items with
  | [] => true
  | (key, unformatted) :: rest =>
      let plain :=
        match format_eq unformatted kwargs message with
        | Ok false => alias_inert message rest kwargs
        | _ => true
        end in
      if String.eqb key "does_not_exist" then
        match kwargs !! "value" with
        | Some (PList (v :: values)) =>
            match any_element unformatted kwargs message (v :: values) with
            | Ok false =>
                after_miss message ((key, unformatted) :: rest) kwargs
                  (<["value" := default v (last (v :: values))]> kwargs)
            | _ => true
            end
        | _ => plain
        end
      else plain
  end.

(** [alias_inert] for the pass over the field and, when no key of the
    field matches, over its child relations; the keys of each
    [error_messages], which is a dictionary, are distinct. *)
Fixpoint aliasing_inert (self : Serializer) (field : Field)
    (message name : string) : bool :=
  match reconstructed self field name with
  | Raise _ => true
  | Ok kwargs =>
      distinct_keys (error_messages field)
      && alias_inert message (error_messages field) kwargs
      && match first_match_result message (error_messages field) kwargs, field with
         | Ok None, mkField _ _ _ _ (Some child) _ _ _ _ _ _ _ _ _ _ =>
             aliasing_inert self child message name
         | _, _ => true
         end
  end.

(** No key matches anywhere: the test of every key of the field fails,
    and so it is on the child relations. *)
Fixpoint no_key_matches (self : Serializer) (field : Field)
    (message name : string) : Prop :=
  match reconstructed self field name with
  | Raise _ => False
  | Ok kwargs =>
      (forall kt, kt ∈ error_messages field ->
                  key_outcome kt.1 kt.2 kwargs message = Ok false)
      /\ match field with
         | mkField _ _ _ _ (Some child) _ _ _ _ _ _ _ _ _ _ =>
             no_key_matches self child message name
         | _ => True
         end
  end.

(** The template of the settings for a payload of the wrong type formats. *)
Definition invalid_data_message_ok (settings : Settings) (self : Serializer)
  : bool :=
  is_ok (format (INVALID_DATA_MESSAGE settings)
           {[ "data_type" := PStr (type_name (initial_data self)) ]}).

(** The entry is one of the wrappers of [wrap_nested_errors]. *)
Definition is_wrapper (e : PrettyError) : bool :=
  match e with Leaf _ => false | _ => true end.

(** How many of [error_key] and [error_code] are supplied. *)
Definition supplied_count (error_key : option string) (error_code : pyval) : nat :=
  ((if error_key is Some _ then 1 else 0)
   + (if is_none error_code then 0 else 1))%nat.

(** The configuration errors of [register_error] in the words of the
    specification: no field name and no code; a name that is no field; a
    field name with not exactly one of key and code; a key given for a
    class the catalog does not know, or that the catalog of the class
    does not hold. *)
Definition configuration_error_as_stated (settings : Settings)
    (self : Serializer) (field_name error_key : option string)
    (error_code : pyval) : bool :=
  match field_name with
  | None => is_none error_code
  | Some name =>
      match assoc_get (fields self) name with
      | None => true
      | Some f =>
          negb (Nat.eqb (supplied_count error_key error_code) 1)
          || match error_key with
             | Some k =>
                 match FRIENDLY_FIELD_ERRORS settings !! class_name f with
                 | None => true
                 | Some catalog => is_none (dict_get catalog k)
                 end
             | None => false
             end
      end
  end.

(** Two kwargs bind the same names. *)
Definition same_keys (kw1 kw2 : kwargs_t) : Prop :=
  forall k, is_Some (kw1 !! k) <-> is_Some (kw2 !! k).

(** The file branch of [get_field_kwargs] is the one taken. *)
Definition file_typed (self : Serializer) (field : Field) : bool :=
  let ty := class_name field in
  let fm := field_map self in
  negb (in_names ty (fm_boolean fm))
  && negb (in_names ty (fm_string fm))
  && negb (in_names ty (fm_numeric fm))
  && negb (in_names ty (fm_date fm).*1)
  && negb (in_names ty (fm_choice fm))
  && in_names ty (fm_file fm).

(** The constraint keys [find_key] can meet: those of the field, then
    those of its child relations. *)
Fixpoint declared_keys (field : Field) : list string :=
  (error_messages field).*1
  ++ match field with
     | mkField _ _ _ _ (Some child) _ _ _ _ _ _ _ _ _ _ => declared_keys child
     | _ => []
     end.

(** How many messages the raw error map holds. *)
Definition count_messages (errors : list (string * list string)) : nat :=
  sum_list ((fun entry => length entry.2) <$> errors).

(** What the outcome of a validator makes of [_run_validator]. *)
Definition is_miss (r : result pyval) : Prop :=
  exists v, r = Ok v /\ truthy v = false.

(** More fields and serializers on which the statements are evaluated. *)
Module MoreFixtures.

(** [serializers.FileField(max_length=100)] of a serializer whose [data]
    holds nothing under ["avatar"]. *)
Definition avatar_field : Field :=
  {| class_name := "FileField"; field_name := "avatar";
     error_messages :=
       Fixtures.base_messages ++
       [("max_length",
         "Ensure this filename has at most {max_length} characters (it has {length}).")];
     validators := []; child_relation := None;
     max_length := Some 100; min_length := None;
     min_value := PNone; max_value := PNone;
     decimal_places := None; max_digits := None;
     slug_field := None; source := "avatar"; parent_data := PDict [];
     as_serializer := None |}.

(** The validator of [Fixtures.unique_validator], its arguments declared
    the other way round. *)
Definition swapped_validator : Validator :=
  {| v_name := "UniqueValidator";
     v_args := ["serializer_field"; "value"; "self"];
     v_call := v_call Fixtures.unique_validator |}.

(** [Fixtures.accounts] with the code 0 for the validator in the table of
    the serializer. *)
Definition accounts_zero (email : string) : Serializer :=
  {| field_map := Fixtures.drf_field_map;
     FIELD_VALIDATION_ERRORS := <["UniqueValidator" := PInt 0]> ∅;
     NON_FIELD_ERRORS := ∅;
     registered_errors := ∅;
     initial_data := PDict [("email", PStr email)];
     fields := [("email", Fixtures.email_field)];
     methods := [] |}.

End MoreFixtures.

(** The first of the [items] that raises, raises [e]: those before it
    raise nothing. *)
Definition first_to_raise {A} (raises : A -> exn -> Prop) (items : list A)
    (e : exn) : Prop :=
  exists pre x post,
    items = pre ++ x :: post
    /\ (forall y e', y ∈ pre -> ~ raises y e')
    /\ raises x e.

(** The many-to-many test of one turn of the loop of [find_key]: whether
    the handler answered true, and the kwargs the turn goes on with. *)
Definition handler_turn (self : Serializer) (field : Field) (message key : string)
    (kwargs : kwargs_t) : result (bool * kwargs_t) :=
  if String.eqb key "does_not_exist"
     && is_list (default PNone (kwargs !! "value"))
  then does_not_exist_many_to_many_handler self field message kwargs
  else Ok (false, kwargs).

(** The turns of the loop of [find_key] over [items] raise nothing and
    find no key; the kwargs they leave. *)
Fixpoint turns_miss (self : Serializer) (field : Field) (message : string)
    (items : list (string * string)) (kwargs : kwargs_t) : option kwargs_t :=
  match items with
  | [] => Some kwargs
  | (key, unformatted) :: rest =>
      match handler_turn self field message key kwargs with
      | Ok (false, kwargs) =>
          match format_eq unformatted kwargs message with
          | Ok false => turns_miss self field message rest kwargs
          | _ => None
          end
      | _ => None
      end
  end.

(** The loop of [find_key] raises [e]: after turns that found no key, the
    handler raises [e], or it does not answer true and the template of
    the key does not format, with [e]. *)
Definition loop_raises (self : Serializer) (field : Field) (message : string)
    (items : list (string * string)) (kwargs : kwargs_t) (e : exn) : Prop :=
  exists pre key unformatted post kwargs',
    items = pre ++ (key, unformatted) :: post
    /\ turns_miss self field message pre kwargs = Some kwargs'
    /\ (handler_turn self field message key kwargs' = Raise e
        \/ exists kwargs'',
             handler_turn self field message key kwargs' = Ok (false, kwargs'')
             /\ format unformatted kwargs'' = Raise e).

(** [find_key] raises [e]: the value cannot be read or the kwargs cannot
    be reconstructed, or the loop over the keys of the field raises, or
    it finds no key and [find_key] raises on the child relation. *)
Fixpoint find_key_raises (self : Serializer) (field : Field)
    (message name : string) (e : exn) : Prop :=
  match reconstructed self field name with
  | Raise e' => e = e'
  | Ok kwargs =>
      loop_raises self field message (error_messages field) kwargs e
      \/ (is_Some (turns_miss self field message (error_messages field) kwargs)
          /\ match field with
             | mkField _ _ _ _ (Some child) _ _ _ _ _ _ _ _ _ _ =>
                 find_key_raises self child message name e
             | _ => False
             end)
  end.

(** A validator run again raises [e]: it asks for a value that was not
    submitted, or it ends by an exception that is none of the two
    validation errors, or by a validation error of the framework whose
    detail is empty. *)
Definition validator_raises (self : Serializer) (field : Field)
    (validator : Validator) (e : exn) : Prop :=
  if in_names "value" (v_args validator) then
    match py_getitem (initial_data self) (field_name field) with
    | Raise e' => e = e'
    | Ok value =>
        let field_args :=
          if in_names "serializer_field" (v_args validator)
          then [ArgField (field_name field)] else [] in
        match v_call validator (ArgValue value :: field_args) with
        | RaisesOther e' => e = e'
        | RaisesRest [] => e = IndexError
        | _ => False
        end
    end
  else
    let field_args :=
      if in_names "serializer_field" (v_args validator)
      then [ArgField (field_name field)] else [] in
    match v_call validator field_args with
    | RaisesOther e' => e = e'
    | RaisesRest [] => e = IndexError
    | _ => False
    end.

(** The search for the validator of a message raises [e]: a validator of
    the field raises it, those before it having missed, or they all miss
    and the [validate_<field_name>] method raises it. *)
Definition validators_raise (self : Serializer) (field : Field)
    (message : string) (e : exn) : Prop :=
  (exists pre v post,
      validators field = pre ++ v :: post
      /\ (forall w, w ∈ pre -> is_miss (_run_validator self w field message))
      /\ validator_raises self field v e)
  \/ ((forall w, w ∈ validators field ->
                 is_miss (_run_validator self w field message))
      /\ exists h,
           assoc_get (methods self) ("validate_" +:+ field_name field) = Some h
           /\ validator_raises self field h e).

(** The message of a field raises [e]: it is no key of the store, and
    [find_key] raises, or [find_key] finds no key and the search for a
    validator raises. *)
Definition field_message_raises (self : Serializer) (field : Field)
    (message : string) (e : exn) : Prop :=
  registered_errors self !! message = None
  /\ (find_key_raises self field message (field_name field) e
      \/ (exists key,
             find_key self field message (field_name field) = Ok key
             /\ not_key key = true)
         /\ validators_raise self field message e).

(** A message of the non-field bucket raises [e]: it is no key of the
    store, and the template of the settings does not format. *)
Definition non_field_message_raises (settings : Settings) (self : Serializer)
    (message : string) (e : exn) : Prop :=
  registered_errors self !! message = None
  /\ format (INVALID_DATA_MESSAGE settings)
       {[ "data_type" := PStr (type_name (initial_data self)) ]} = Raise e.

(** A dictionary of the result of a nested serializer raises [e]: the
    first of its non-field messages that raises. *)
Definition error_dict_raises (settings : Settings) (self : Serializer)
    (d : ErrorDict) (e : exn) : Prop :=
  exists l,
    ed_non_field_errors d = Some l
    /\ first_to_raise (non_field_message_raises settings self) l e.

(** The nested branch raises [e]: the nested validation pass raises it,
    or one of the dictionaries it gives does. *)
Definition nested_raises (settings : Settings) (self : Serializer)
    (serializer : BaseSerializer) (error_type : string) (e : exn) : Prop :=
  match get_sub_serializer_errors self serializer error_type with
  | Raise e' => e = e'
  | Ok (ErrDict d) => error_dict_raises settings self d e
  | Ok (ErrList l) => first_to_raise (error_dict_raises settings self) l e
  end.

(** An entry of the raw error map raises [e]. *)
Definition entry_raises (settings : Settings) (self : Serializer)
    (entry : string * list string) (e : exn) : Prop :=
  let (error_type, messages) := entry in
  if String.eqb error_type "non_field_errors" then
    first_to_raise (non_field_message_raises settings self) messages e
  else
    match assoc_get (fields self) error_type with
    | None => e = KeyError error_type
    | Some field =>
        match as_serializer field with
        | Some serializer =>
            match py_contains (initial_data self) error_type with
            | Raise e' => e = e'
            | Ok true => nested_raises settings self serializer error_type e
            | Ok false =>
                first_to_raise (field_message_raises self field) messages e
            end
        | None => first_to_raise (field_message_raises self field) messages e
        end
    end.

(** The field and its child relations, with [data] for what
    [field.parent.data] gives. *)
Fixpoint with_parent_data (data : pyval) (field : Field) : Field :=
  match field with
  | mkField class_name field_name error_messages validators child_relation
      max_length min_length min_value max_value decimal_places max_digits
      slug_field source _ as_serializer =>
      mkField class_name field_name error_messages validators
        match child_relation with
        | Some child => Some (with_parent_data data child)
        | None => None
        end
        max_length min_length min_value max_value decimal_places max_digits
        slug_field source data as_serializer
  end.

(** [get_field_kwargs] reads [field.parent.data] on the field or on one
    of its child relations: one of them takes the file branch. *)
Fixpoint reads_parent_data (self : Serializer) (field : Field) : bool :=
  file_typed self field
  || match field with
     | mkField _ _ _ _ (Some child) _ _ _ _ _ _ _ _ _ _ =>
         reads_parent_data self child
     | _ => false
     end.

(** The entry of one message found under the key [error_type] of the raw
    error map, when the key is no nested serializer. *)
Definition classify_message (settings : Settings) (self : Serializer)
    (error_type message : string) : result Entry :=
  if String.eqb error_type "non_field_errors" then
    get_non_field_error_entry settings self message
  else
    match assoc_get (fields self) error_type with
    | Some field => get_field_error_entry settings self message field
    | None => Raise (KeyError error_type)
    end.

(** * Properties *)

(** ** Formatting and the loop of the matcher *)

Section Formatting.

Implicit Types kwargs : kwargs_t.

Lemma format_field_same_keys kw1 kw2 name :
  same_keys kw1 kw2 ->
  is_ok (format_field name kw1) = is_ok (format_field name kw2).
Proof.
  intros H. unfold format_field. destruct (all_digits name); [reflexivity|].
  specialize (H name). destruct (kw1 !! name), (kw2 !! name); simpl; try reflexivity.
  - destruct H as [H _]. destruct H as [? ?]; [eauto|discriminate].
  - destruct H as [_ H]. destruct H as [? ?]; [eauto|discriminate].
Qed.

Lemma is_ok_bind {A B} (r : result A) (k : A -> result B) :
  is_ok (bind r k) = match r with Ok a => is_ok (k a) | Raise _ => false end.
Proof. destruct r; reflexivity. Qed.

Lemma fmt_same_keys_len kw1 kw2 (n : nat) :
  same_keys kw1 kw2 ->
  forall s fld, (String.length s <= n)%nat ->
  is_ok (fmt kw1 s fld) = is_ok (fmt kw2 s fld).
Proof.
  intros H. induction n as [|n IH]; intros s fld Hlen.
  - destruct s; [|simpl in Hlen; lia]. destruct fld; reflexivity.
  - destruct s as [|c r]; [destruct fld; reflexivity|].
    simpl in Hlen.
    assert (Hr : forall fld, is_ok (fmt kw1 r fld) = is_ok (fmt kw2 r fld))
      by (intros; apply IH; lia).
    assert (Hlit : forall (f g : string -> string) s',
               (String.length s' <= n)%nat ->
               is_ok (do t <- fmt kw1 s' None; Ok (f t))
               = is_ok (do t <- fmt kw2 s' None; Ok (g t))).
    { intros f g s' Hs'. rewrite !is_ok_bind. specialize (IH s' None Hs').
      destruct (fmt kw1 s' None), (fmt kw2 s' None); simpl in *; congruence. }
    destruct fld as [name|]; simpl.
    + destruct (Ascii.eqb c "}").
      * rewrite !is_ok_bind.
        pose proof (format_field_same_keys kw1 kw2 name H) as Hf.
        destruct (format_field name kw1), (format_field name kw2);
          simpl in Hf; try discriminate; try reflexivity.
        apply Hlit. lia.
      * destruct (field_special c); [reflexivity|]. apply Hr.
    + destruct (Ascii.eqb c "{").
      * destruct r as [|c' r']; [apply Hr|].
        assert (Hr' : (String.length r' <= n)%nat) by (simpl in Hlen; lia).
        destruct c' as [[] [] [] [] [] [] [] []]; try apply Hr.
        apply Hlit, Hr'.
      * destruct (Ascii.eqb c "}").
        -- destruct r as [|c' r']; [reflexivity|].
           assert (Hr' : (String.length r' <= n)%nat) by (simpl in Hlen; lia).
           destruct c' as [[] [] [] [] [] [] [] []]; try reflexivity.
           apply Hlit, Hr'.
        -- apply Hlit. lia.
Qed.

Lemma format_same_keys kw1 kw2 t :
  same_keys kw1 kw2 -> is_ok (format t kw1) = is_ok (format t kw2).
Proof. intros H. apply (fmt_same_keys_len kw1 kw2 (String.length t) H). lia. Qed.

Lemma same_keys_insert kwargs (k : string) v w :
  kwargs !! k = Some w -> same_keys kwargs (<[k := v]> kwargs).
Proof.
  intros Hk k'. destruct (decide (k = k')) as [<-|Hne].
  - rewrite lookup_insert_eq, Hk. split; eauto.
  - rewrite lookup_insert_ne by done. reflexivity.
Qed.

Lemma format_eq_ok t kwargs m :
  is_ok (format t kwargs) = true ->
  format_eq t kwargs m = Ok (template_matches t kwargs m).
Proof.
  unfold format_eq, template_matches. destruct (format t kwargs); [reflexivity|discriminate].
Qed.

Lemma template_matches_true t kwargs m :
  template_matches t kwargs m = true <-> format t kwargs = Ok m.
Proof.
  unfold template_matches. destruct (format t kwargs) as [s|e]; split; intros H;
    try discriminate.
  - apply String.eqb_eq in H. congruence.
  - injection H as ->. apply String.eqb_refl.
Qed.

End Formatting.

Section Matcher.

Implicit Types kwargs : kwargs_t.
Implicit Types items : list (string * string).

Lemma assoc_get_distinct {A} (d : list (string * A)) k v :
  NoDup d.*1 -> (k, v) ∈ d -> assoc_get d k = Some v.
Proof.
  induction d as [|[k' v'] d IH]; intros Hnd Hin.
  - inversion Hin.
  - simpl in *. apply NoDup_cons in Hnd as [Hk' Hnd].
    apply elem_of_cons in Hin as [Heq|Hin].
    + injection Heq as -> ->. rewrite String.eqb_refl. reflexivity.
    + destruct (String.eqb_spec k' k) as [->|Hne]; [|auto].
      exfalso. apply Hk'. apply list_elem_of_fmap. exists (k, v). auto.
Qed.

(** The handler, turn by turn: each element is tried as the ['value'] of
    the caller's kwargs, and at a miss the kwargs come back with the last
    element in that place. *)
Lemma handler_loop_spec t m (values : list pyval) kwargs :
  (forall v, v ∈ values -> is_ok (format t (<["value" := v]> kwargs)) = true) ->
  exists kwargs',
    handler_loop t m values kwargs
    = Ok (existsb (element_matches t kwargs m) values, kwargs')
    /\ (existsb (element_matches t kwargs m) values = false ->
        kwargs' = match last values with
                  | Some v => <["value" := v]> kwargs
                  | None => kwargs
                  end).
Proof.
  revert kwargs. induction values as [|v values IH]; intros kwargs Hok.
  - exists kwargs. split; reflexivity.
  - simpl. rewrite format_eq_ok by (apply Hok; left).
    fold (element_matches t kwargs m v).
    destruct (element_matches t kwargs m v) eqn:Hv; simpl.
    + eexists. split; [reflexivity|discriminate].
    + destruct (IH (<["value" := v]> kwargs)) as (kwargs' & Hrun & Hlast).
      { intros v' Hv'. rewrite insert_insert_eq. apply Hok. right. exact Hv'. }
      assert (Hsame : existsb (element_matches t (<["value" := v]> kwargs) m) values
                      = existsb (element_matches t kwargs m) values).
      { clear. induction values as [|v' values IH]; [reflexivity|]. simpl.
        unfold element_matches at 1 3. rewrite insert_insert_eq. rewrite IH.
        reflexivity. }
      exists kwargs'. rewrite Hrun, Hsame. split; [reflexivity|].
      intros Hnone. rewrite Hlast by (rewrite Hsame; exact Hnone).
      destruct values as [|v' values']; [reflexivity|].
      change (last (v :: v' :: values')) with (last (v' :: values')).
      destruct (last (v' :: values')) eqn:Hl.
      * apply insert_insert_eq.
      * apply last_None in Hl. discriminate.
Qed.

Lemma handler_spec self field m kwargs t (values : list pyval) :
  assoc_get (error_messages field) "does_not_exist" = Some t ->
  kwargs !! "value" = Some (PList values) ->
  is_ok (format t kwargs) = true ->
  exists kwargs',
    does_not_exist_many_to_many_handler self field m kwargs
    = Ok (existsb (element_matches t kwargs m) values, kwargs')
    /\ (existsb (element_matches t kwargs m) values = false ->
        kwargs' = match last values with
                  | Some v => <["value" := v]> kwargs
                  | None => kwargs
                  end).
Proof.
  intros Ht Hv Hok. unfold does_not_exist_many_to_many_handler.
  rewrite Ht, Hv. simpl. apply handler_loop_spec.
  intros v _. etransitivity; [|exact Hok]. symmetry. apply format_same_keys.
  eapply same_keys_insert, Hv.
Qed.

(** Outside the many-to-many case the loop of [find_key] formats every
    template with the kwargs it was given. *)
Lemma find_key_loop_plain self field m items kwargs :
  (is_list (default PNone (kwargs !! "value")) = false
   \/ "does_not_exist" ∉ items.*1) ->
  find_key_loop self field m items kwargs = plain_loop m items kwargs.
Proof.
  intros H. induction items as [|[k t] items IH]; [reflexivity|].
  simpl. assert (Hc : String.eqb k "does_not_exist"
                      && is_list (default PNone (kwargs !! "value")) = false).
  { destruct H as [->|H]; [apply andb_false_r|].
    apply andb_false_intro1. apply String.eqb_neq. intros ->. apply H. simpl. left. }
  rewrite Hc. simpl. rewrite IH; [reflexivity|].
  destruct H as [H|H]; [left; exact H|right]. intros Hin. apply H. simpl. right. exact Hin.
Qed.

Lemma find_key_unfold self field m name :
  find_key self field m name =
  do kwargs <- reconstructed self field name;
  do key <- find_key_loop self field m (error_messages field) kwargs;
  match key with
  | Some key => Ok (Some key)
  | None =>
      match child_relation field with
      | Some child => find_key self child m name
      | None => Ok None
      end
  end.
Proof.
  destruct field as [? ? ? ? [child|] ? ? ? ? ? ? ? ? ? ?]; simpl;
    unfold reconstructed; destruct (py_get (initial_data self) name); reflexivity.
Qed.

Lemma handler_loop_miss t m (values : list pyval) kwargs kwargs' :
  handler_loop t m values kwargs = Ok (false, kwargs') ->
  kwargs' = match last values with
            | Some v => <["value" := v]> kwargs
            | None => kwargs
            end
  /\ forall v, v ∈ values -> format_eq t (<["value" := v]> kwargs) m = Ok false.
Proof.
  revert kwargs. induction values as [|v values IH]; intros kwargs; simpl.
  - intros [= <-]. split; [reflexivity|]. intros v Hv. inversion Hv.
  - destruct (format_eq t (<["value" := v]> kwargs) m) as [[]|] eqn:Hv; simpl;
      try discriminate.
    intros Hrun. apply IH in Hrun as [-> Hall]. split.
    + destruct values as [|v' values']; [reflexivity|].
      change (last (v :: v' :: values')) with (last (v' :: values')).
      destruct (last (v' :: values')) eqn:Hl.
      * apply insert_insert_eq.
      * apply last_None in Hl. discriminate.
    + intros v' [->|Hin]%elem_of_cons; [exact Hv|].
      specialize (Hall v' Hin). rewrite insert_insert_eq in Hall. exact Hall.
Qed.

Lemma find_key_loop_skip self field m pre rest kwargs :
  (forall kt, kt ∈ pre ->
     kt.1 <> "does_not_exist" /\ format_eq kt.2 kwargs m = Ok false) ->
  find_key_loop self field m (pre ++ rest) kwargs
  = find_key_loop self field m rest kwargs.
Proof.
  induction pre as [|[k t] pre IH]; intros H; [reflexivity|].
  destruct (H (k, t)) as [Hk Ht]; [left|]. simpl in Hk, Ht. simpl.
  apply String.eqb_neq in Hk. rewrite Hk. simpl. rewrite Ht. simpl.
  apply IH. intros kt Hin. apply H. right. exact Hin.
Qed.

Lemma get_field_kwargs_relation self field data :
  relation_typed self field = true ->
  exists kwargs,
    get_field_kwargs self field data = Ok kwargs
    /\ kwargs !! "value" = Some data.
Proof.
  unfold relation_typed. intros H.
  repeat (apply andb_prop in H as [H ?]).
  repeat match goal with
         | H : negb _ = true |- _ => apply negb_true_iff in H
         end.
  unfold get_field_kwargs.
  repeat match goal with
         | H : in_names _ _ = _ |- _ => rewrite H; clear H
         end.
  eexists. split; [reflexivity|]. apply lookup_insert_eq.
Qed.

Lemma any_element_rebound t m (values : list pyval) kwargs v :
  any_element t (<["value" := v]> kwargs) m values = any_element t kwargs m values.
Proof.
  induction values as [|w values IH]; [reflexivity|]. simpl.
  rewrite insert_insert_eq, IH. reflexivity.
Qed.

(** The handler gives the answer of the many-to-many test, and at a miss
    the kwargs with the last element under ['value']. *)
Lemma handler_loop_any_element t m (values : list pyval) kwargs :
  match handler_loop t m values kwargs with
  | Ok (hit, kwargs') =>
      any_element t kwargs m values = Ok hit
      /\ (hit = false ->
          kwargs' = match last values with
                    | Some v => <["value" := v]> kwargs
                    | None => kwargs
                    end)
  | Raise e => any_element t kwargs m values = Raise e
  end.
Proof.
  revert kwargs. induction values as [|v values IH]; intros kwargs; simpl.
  - split; reflexivity.
  - destruct (format_eq t (<["value" := v]> kwargs) m) as [[]|e]; simpl.
    + split; [reflexivity|discriminate].
    + specialize (IH (<["value" := v]> kwargs)).
      rewrite any_element_rebound in IH.
      destruct (handler_loop t m values (<["value" := v]> kwargs))
        as [[hit kwargs']|e]; [|exact IH].
      destruct IH as [Hany Hmiss]. split; [exact Hany|].
      intros Hhit. rewrite (Hmiss Hhit).
      destruct values as [|v' values']; [reflexivity|].
      change (last (v :: v' :: values')) with (last (v' :: values')).
      destruct (last (v' :: values')) eqn:Hl.
      * apply insert_insert_eq.
      * apply last_None in Hl. discriminate.
    + reflexivity.
Qed.

Lemma first_match_result_plain m items kwargs :
  "does_not_exist" ∉ items.*1 ->
  first_match_result m items kwargs = plain_loop m items kwargs.
Proof.
  induction items as [|[k t] items IH]; intros Hk; [reflexivity|]. simpl.
  unfold key_outcome.
  assert (Hne : String.eqb k "does_not_exist" = false).
  { apply String.eqb_neq. intros ->. apply Hk. simpl. left. }
  rewrite Hne. simpl. rewrite IH; [reflexivity|].
  intros Hin. apply Hk. simpl. right. exact Hin.
Qed.

Lemma plain_loop_after_miss m items kwargs kwargs' :
  after_miss m items kwargs kwargs' = true ->
  plain_loop m items kwargs' = plain_loop m items kwargs.
Proof.
  induction items as [|[k t] items IH]; intros H; [reflexivity|]. simpl in *.
  apply andb_prop in H as [Heq Hrest]. apply bool_decide_eq_true_1 in Heq.
  rewrite Heq. destruct (format_eq t kwargs m) as [[]|]; simpl; auto.
Qed.

(** Where the rebinding changes nothing, the loop of [find_key] is the
    pass of the specification. *)
Lemma find_key_loop_first_match self field m items kwargs :
  (forall t, ("does_not_exist", t) ∈ items ->
             assoc_get (error_messages field) "does_not_exist" = Some t) ->
  NoDup items.*1 ->
  alias_inert m items kwargs = true ->
  find_key_loop self field m items kwargs = first_match_result m items kwargs.
Proof.
  induction items as [|[k t] items IH]; intros Hdne Hnd Hinert; [reflexivity|].
  simpl in Hnd. apply NoDup_cons in Hnd as [Hk Hnd].
  assert (IH' : alias_inert m items kwargs = true ->
                find_key_loop self field m items kwargs
                = first_match_result m items kwargs).
  { intros. apply IH; auto. intros t' Hin. apply Hdne. right. exact Hin. }
  assert (Hplain : String.eqb k "does_not_exist"
                   && is_list (default PNone (kwargs !! "value")) = false ->
                   key_outcome k t kwargs m = format_eq t kwargs m).
  { unfold key_outcome. destruct (String.eqb k "does_not_exist"); [|reflexivity].
    destruct (kwargs !! "value") as [[]|]; simpl; try reflexivity. discriminate. }
  cbn [alias_inert] in Hinert. simpl.
  destruct (String.eqb k "does_not_exist"
            && is_list (default PNone (kwargs !! "value"))) eqn:Hc.
  - apply andb_prop in Hc as [Hkd Hl]. rewrite Hkd in Hinert.
    apply String.eqb_eq in Hkd. subst k.
    destruct (kwargs !! "value") as [[| | | |values| |]|] eqn:Hv; try discriminate.
    unfold key_outcome. simpl. rewrite Hv.
    unfold does_not_exist_many_to_many_handler.
    rewrite (Hdne t) by left. rewrite Hv. simpl.
    pose proof (handler_loop_any_element t m values kwargs) as Hh.
    destruct (handler_loop t m values kwargs) as [[hit kwargs']|e];
      [|rewrite Hh; reflexivity].
    destruct Hh as [Hany Hmiss]. rewrite Hany. simpl.
    destruct hit; [reflexivity|]. specialize (Hmiss eq_refl).
    rewrite first_match_result_plain by exact Hk.
    rewrite find_key_loop_plain by (right; exact Hk).
    destruct values as [|v values].
    + simpl in Hmiss. subst kwargs'.
      destruct (format_eq t kwargs m) as [[]|]; reflexivity.
    + rewrite Hany in Hinert.
      assert (Hkw : kwargs' = <["value" := default v (last (v :: values))]> kwargs).
      { rewrite Hmiss. destruct (last (v :: values)) eqn:Hlast; [reflexivity|].
        apply last_None in Hlast. discriminate. }
      rewrite <- Hkw in Hinert. cbn [after_miss] in Hinert.
      apply andb_prop in Hinert as [Heq Hrest].
      apply bool_decide_eq_true_1 in Heq. rewrite Heq.
      destruct (format_eq t kwargs m) as [[]|]; simpl; try reflexivity.
      apply plain_loop_after_miss, Hrest.
  - rewrite (Hplain eq_refl). simpl.
    assert (Hin : (match format_eq t kwargs m with
                   | Ok false => alias_inert m items kwargs
                   | _ => true
                   end) = true).
    { destruct (String.eqb k "does_not_exist"); [|exact Hinert].
      destruct (kwargs !! "value") as [[| | | |[|v values]| |]|];
        try exact Hinert; discriminate. }
    destruct (format_eq t kwargs m) as [[]|]; simpl; auto.
Qed.

Lemma matcher_result_unfold self field m name :
  matcher_result self field m name =
  do kwargs <- reconstructed self field name;
  do key <- first_match_result m (error_messages field) kwargs;
  match key with
  | Some key => Ok (Some key)
  | None =>
      match child_relation field with
      | Some child => matcher_result self child m name
      | None => Ok None
      end
  end.
Proof. destruct field as [? ? ? ? [child|] ? ? ? ? ? ? ? ? ? ?]; reflexivity. Qed.

Lemma aliasing_inert_unfold self field m name :
  aliasing_inert self field m name =
  match reconstructed self field name with
  | Raise _ => true
  | Ok kwargs =>
      distinct_keys (error_messages field)
      && alias_inert m (error_messages field) kwargs
      && match first_match_result m (error_messages field) kwargs,
               child_relation field with
         | Ok None, Some child => aliasing_inert self child m name
         | _, _ => true
         end
  end.
Proof.
  destruct field as [? ? ? ? [child|] ? ? ? ? ? ? ? ? ? ?]; simpl;
    destruct (reconstructed self _ name); try reflexivity;
    destruct (first_match_result m _ _) as [[]|]; reflexivity.
Qed.

Lemma find_key_matcher_result (field : Field) : forall self m name,
  aliasing_inert self field m name = true ->
  find_key self field m name = matcher_result self field m name.
Proof.
  revert field. fix IH 1. intros field self m name.
  rewrite find_key_unfold, matcher_result_unfold, aliasing_inert_unfold.
  destruct (reconstructed self field name) as [kwargs|]; [|reflexivity].
  intros H. apply andb_prop in H as [H Hchild]. apply andb_prop in H as [Hnd Hinert].
  apply bool_decide_eq_true_1 in Hnd. simpl.
  rewrite find_key_loop_first_match; auto using assoc_get_distinct.
  destruct (first_match_result m (error_messages field) kwargs) as [[key|]|];
    simpl; try reflexivity.
  destruct field as [? ? ? ? [child|] ? ? ? ? ? ? ? ? ? ?]; simpl in *; [|reflexivity].
  apply IH. exact Hchild.
Qed.

Lemma first_match_result_hit m pre k t post kwargs :
  (forall kt, kt ∈ pre -> key_outcome kt.1 kt.2 kwargs m = Ok false) ->
  first_match_result m (pre ++ (k, t) :: post) kwargs
  = do hit <- key_outcome k t kwargs m;
    if (hit : bool) then Ok (Some k) else first_match_result m post kwargs.
Proof.
  induction pre as [|[k' t'] pre IH]; intros Hpre; [reflexivity|].
  assert (H0 : key_outcome k' t' kwargs m = Ok false)
    by (apply (Hpre (k', t')); left).
  cbn [app first_match_result]. rewrite H0. simpl. apply IH.
  intros kt Hin. apply Hpre. right. exact Hin.
Qed.

Lemma first_match_result_none m items kwargs :
  (forall kt, kt ∈ items -> key_outcome kt.1 kt.2 kwargs m = Ok false) ->
  first_match_result m items kwargs = Ok None.
Proof.
  induction items as [|[k' t'] items IH]; intros H; [reflexivity|].
  assert (H0 : key_outcome k' t' kwargs m = Ok false)
    by (apply (H (k', t')); left).
  cbn [first_match_result]. rewrite H0. simpl. apply IH.
  intros kt Hin. apply H. right. exact Hin.
Qed.

Lemma first_match_result_none_iff m items kwargs :
  first_match_result m items kwargs = Ok None
  <-> forall kt, kt ∈ items -> key_outcome kt.1 kt.2 kwargs m = Ok false.
Proof.
  split; [|apply first_match_result_none].
  induction items as [|[k t] items IH]; intros H kt Hin; [inversion Hin|].
  cbn [first_match_result] in H.
  destruct (key_outcome k t kwargs m) as [[]|] eqn:Hk; simpl in H; try discriminate.
  apply elem_of_cons in Hin as [->|Hin]; [exact Hk|apply IH; assumption].
Qed.

Lemma no_key_matches_unfold self field m name :
  no_key_matches self field m name
  = match reconstructed self field name with
    | Raise _ => False
    | Ok kwargs =>
        (forall kt, kt ∈ error_messages field ->
                    key_outcome kt.1 kt.2 kwargs m = Ok false)
        /\ match child_relation field with
           | Some child => no_key_matches self child m name
           | None => True
           end
    end.
Proof. destruct field as [? ? ? ? [child|] ? ? ? ? ? ? ? ? ? ?]; reflexivity. Qed.

Lemma matcher_result_none (field : Field) : forall self m name,
  matcher_result self field m name = Ok None <-> no_key_matches self field m name.
Proof.
  revert field. fix IH 1. intros field self m name.
  rewrite matcher_result_unfold, no_key_matches_unfold.
  destruct (reconstructed self field name) as [kwargs|]; simpl;
    [|split; [discriminate|intros []]].
  rewrite <- first_match_result_none_iff.
  destruct (first_match_result m (error_messages field) kwargs) as [[key|]|]; simpl.
  - split; [discriminate|]. intros [H _]. discriminate.
  - destruct field as [? ? ? ? [child|] ? ? ? ? ? ? ? ? ? ?]; simpl.
    + rewrite IH. tauto.
    + tauto.
  - split; [discriminate|]. intros [H _]. discriminate.
Qed.

End Matcher.

(** ** Parameter reconstruction *)

Section Reconstruction.

Ltac lookup_kwargs :=
  repeat (rewrite lookup_insert_ne by discriminate);
  first [ rewrite lookup_insert_eq; reflexivity | apply lookup_empty ].

(** C9. For a numeric-typed field and any submitted value, the
    reconstruction returns a mapping that holds [min_value], [max_value],
    [decimal_places], [max_decimal_places] and [max_digits] as the field
    has them, [data_type] and [input_type] both equal to the type name of
    the value, and [max_whole_digits = max_digits - decimal_places]
    exactly when both are known: the key is missing otherwise. *)
Theorem get_field_kwargs_numeric (self : Serializer) (field : Field) (v : pyval) :
  numeric_typed self field = true ->
  exists kwargs : kwargs_t,
    get_field_kwargs self field v = Ok kwargs
    /\ kwargs !! "min_value" = Some (min_value field)
    /\ kwargs !! "max_value" = Some (max_value field)
    /\ kwargs !! "decimal_places" = Some (of_option_int (decimal_places field))
    /\ kwargs !! "max_decimal_places" = Some (of_option_int (decimal_places field))
    /\ kwargs !! "max_digits" = Some (of_option_int (max_digits field))
    /\ kwargs !! "data_type" = Some (PStr (type_name v))
    /\ kwargs !! "input_type" = Some (PStr (type_name v))
    /\ kwargs !! "max_whole_digits" =
         match max_digits field, decimal_places field with
         | Some m, Some d => Some (PInt (m - d))
         | _, _ => None
         end
    /\ (is_Some (kwargs !! "max_whole_digits") <->
        is_Some (max_digits field) /\ is_Some (decimal_places field)).
Proof.
  unfold numeric_typed. intros H.
  apply andb_prop in H as [H Hnum]. apply andb_prop in H as [Hb Hs].
  apply negb_true_iff in Hb, Hs.
  unfold get_field_kwargs. rewrite Hb, Hs, Hnum.
  destruct (max_digits field) as [m|], (decimal_places field) as [d|]; simpl;
    eexists; (split; [reflexivity|]);
    repeat (split; [lookup_kwargs|]);
    rewrite !is_Some_alt;
    (split; [|intros [? ?]; assumption]);
    repeat (rewrite lookup_insert_ne by discriminate);
    rewrite ?lookup_insert_eq, ?lookup_empty; tauto.
Qed.

Lemma get_field_kwargs_numeric_witness :
  numeric_typed Fixtures.shop Fixtures.price_field = true
  /\ exists kwargs : kwargs_t,
       get_field_kwargs Fixtures.shop Fixtures.price_field (PStr "abc") = Ok kwargs
       /\ kwargs !! "max_digits" = Some (PInt 5)
       /\ kwargs !! "data_type" = Some (PStr "str")
       /\ kwargs !! "max_whole_digits" = Some (PInt 3).
Proof.
  split; [reflexivity|].
  destruct (get_field_kwargs_numeric Fixtures.shop Fixtures.price_field
              (PStr "abc") eq_refl)
    as (kwargs & Hk & _ & _ & _ & _ & Hd & Ht & _ & Hw & _).
  exists kwargs. repeat split; assumption.
Defined.

End Reconstruction.

(** ** The template matcher *)

Section TemplateMatcher.

Import Fixtures.

Implicit Types kwargs : kwargs_t.

(** C3, as the code has it.  [find_key] goes over the keys of the field
    in declared order and tests each one: the test of a key succeeds when
    its template formatted with the reconstructed kwargs is the message,
    or when the key is [does_not_exist], the value is a list and some
    element of it in the place of the list makes the template format to
    the message; it raises what the formatting raises ([key_outcome]).
    The answer is the first key whose test succeeds, the tests before it
    having failed; when the test of a key raises, the tests before it
    having failed, [find_key] raises the same exception; when every test
    fails, the answer is that of the child relation, if there is one, and
    [None] otherwise ([matcher_result]), so that [None] is the answer
    exactly when no key matches anywhere ([no_key_matches]).  Outside
    [does_not_exist] with a list the test of a key is the comparison of
    its formatted template.
    This is stated for the passes in which the rebinding of ['value'] by
    the many-to-many handler changes nothing ([aliasing_inert]): after a
    miss of the handler on a list that is not empty, the templates
    examined give with the last element what they give with the list. *)
Theorem find_key_first_match self field m name :
  aliasing_inert self field m name = true ->
  find_key self field m name = matcher_result self field m name
  /\ (find_key self field m name = Ok None <-> no_key_matches self field m name)
  /\ forall kwargs,
       reconstructed self field name = Ok kwargs ->
       (forall pre k t post,
           error_messages field = pre ++ (k, t) :: post ->
           (forall kt, kt ∈ pre -> key_outcome kt.1 kt.2 kwargs m = Ok false) ->
           key_outcome k t kwargs m = Ok true ->
           find_key self field m name = Ok (Some k))
       /\ (forall pre k t post e,
           error_messages field = pre ++ (k, t) :: post ->
           (forall kt, kt ∈ pre -> key_outcome kt.1 kt.2 kwargs m = Ok false) ->
           key_outcome k t kwargs m = Raise e ->
           find_key self field m name = Raise e)
       /\ ((forall kt, kt ∈ error_messages field ->
                       key_outcome kt.1 kt.2 kwargs m = Ok false) ->
           find_key self field m name =
           match child_relation field with
           | Some child => find_key self child m name
           | None => Ok None
           end)
       /\ (forall k t,
             k <> "does_not_exist"
             \/ is_list (default PNone (kwargs !! "value")) = false ->
             key_outcome k t kwargs m = format_eq t kwargs m).
Proof.
  intros Hinert.
  split; [apply find_key_matcher_result, Hinert|].
  split; [rewrite find_key_matcher_result by exact Hinert; apply matcher_result_none|].
  intros kwargs Hkw.
  rewrite aliasing_inert_unfold, Hkw in Hinert.
  apply andb_prop in Hinert as [H _]. apply andb_prop in H as [Hnd Hin].
  apply bool_decide_eq_true_1 in Hnd.
  assert (Hloop : find_key_loop self field m (error_messages field) kwargs
                  = first_match_result m (error_messages field) kwargs)
    by (apply find_key_loop_first_match; auto using assoc_get_distinct).
  split; [|split; [|split]].
  - intros pre k t post Heq Hpre Hk.
    rewrite find_key_unfold, Hkw. simpl. rewrite Hloop, Heq.
    rewrite first_match_result_hit by exact Hpre. rewrite Hk. reflexivity.
  - intros pre k t post e Heq Hpre Hk.
    rewrite find_key_unfold, Hkw. simpl. rewrite Hloop, Heq.
    rewrite first_match_result_hit by exact Hpre. rewrite Hk. reflexivity.
  - intros Hnone.
    rewrite find_key_unfold, Hkw. simpl. rewrite Hloop.
    rewrite first_match_result_none by exact Hnone. reflexivity.
  - intros k t Hplain. unfold key_outcome.
    destruct Hplain as [Hk|Hl].
    + apply String.eqb_neq in Hk. rewrite Hk. reflexivity.
    + destruct (String.eqb k "does_not_exist"); [|reflexivity].
      destruct (kwargs !! "value") as [[]|]; simpl in *; try reflexivity.
      discriminate.
Qed.

Lemma find_key_first_match_witness :
  aliasing_inert shop when_field "This field is required." "when" = true
  /\ find_key shop when_field "This field is required." "when"
     = Ok (Some "required")
  /\ aliasing_inert shop when_field "Datetime value out of range." "when" = true
  /\ find_key shop when_field "Datetime value out of range." "when"
     = Raise (KeyError "timezone")
  /\ aliasing_inert shop tags_field "Invalid value." "tags" = true
  /\ find_key shop tags_field "Invalid value." "tags" = Ok (Some "invalid").
Proof.
  split; [reflexivity|]. split.
  { destruct (find_key_first_match shop when_field "This field is required." "when")
      as (_ & _ & H); [reflexivity|].
    destruct (H _ eq_refl) as (Hhit & _).
    apply (Hhit [] "required" "This field is required."
             (tl (error_messages when_field))); [reflexivity| |reflexivity].
    intros kt Hin. inversion Hin. }
  split; [reflexivity|]. split.
  { destruct (find_key_first_match shop when_field "Datetime value out of range."
                "when") as [H _]; [reflexivity|].
    rewrite H. reflexivity. }
  split; [reflexivity|].
  destruct (find_key_first_match shop tags_field "Invalid value." "tags")
    as [H _]; [reflexivity|].
  rewrite H. reflexivity.
Defined.

(** C3, as it is stated, does not hold: the [make_aware] template of a
    [DateTimeField] names a time zone that the reconstruction does not
    supply, and [find_key] raises on it before it reaches [overflow], the
    first key whose template formats to the message. *)
Lemma find_key_not_as_stated :
  find_key shop when_field "Datetime value out of range." "when"
  = Raise (KeyError "timezone")
  /\ matcher_as_stated shop when_field "Datetime value out of range." "when"
     = Some "overflow"
  /\ find_key shop when_field "Datetime value out of range." "when"
     <> Ok (matcher_as_stated shop when_field "Datetime value out of range." "when").
Proof. split; [reflexivity|split; [reflexivity|discriminate]]. Qed.

(** The many-to-many case is the other way the answer leaves the plain
    first-match rule: no template formatted with the reconstructed kwargs,
    which hold the whole list, is the message, and the key is found. *)
Example find_key_many_to_many :
  find_key shop tags_field "Object with slug=b does not exist." "tags"
  = Ok (Some "does_not_exist")
  /\ matcher_as_stated shop tags_field "Object with slug=b does not exist." "tags"
     = None.
Proof. split; reflexivity. Qed.

(** C7. For a relation field whose reconstructed value is a list, once
    the template of [does_not_exist] formats to the message with some
    element of the list in place of the list, whichever element it is,
    the handler answers true, the loop of [find_key] at that key returns
    it, and so does [find_key] when no key declared before it matches. *)
Theorem many_to_many_does_not_exist self field m name values kwargs t v :
  relation_typed self field = true ->
  py_get (initial_data self) name = Ok (PList values) ->
  reconstructed self field name = Ok kwargs ->
  assoc_get (error_messages field) "does_not_exist" = Some t ->
  v ∈ values ->
  format t (<["value" := v]> kwargs) = Ok m ->
  kwargs !! "value" = Some (PList values)
  /\ (exists kwargs',
        does_not_exist_many_to_many_handler self field m kwargs = Ok (true, kwargs'))
  /\ (forall post,
        find_key_loop self field m (("does_not_exist", t) :: post) kwargs
        = Ok (Some "does_not_exist"))
  /\ (forall pre post,
        error_messages field = pre ++ ("does_not_exist", t) :: post ->
        (forall kt, kt ∈ pre ->
           kt.1 <> "does_not_exist" /\ format_eq kt.2 kwargs m = Ok false) ->
        find_key self field m name = Ok (Some "does_not_exist")).
Proof.
  intros Hrel Hdata Hkw Ht Hv Hm.
  assert (Hvalue : kwargs !! "value" = Some (PList values)).
  { unfold reconstructed in Hkw. rewrite Hdata in Hkw. simpl in Hkw.
    destruct (get_field_kwargs_relation self field (PList values) Hrel)
      as (kwargs0 & H0 & Hv0). congruence. }
  assert (Hok : is_ok (format t kwargs) = true).
  { rewrite (format_same_keys kwargs (<["value" := v]> kwargs) t)
      by (eapply same_keys_insert, Hvalue).
    rewrite Hm. reflexivity. }
  destruct (handler_spec self field m kwargs t values Ht Hvalue Hok)
    as (kwargs' & Hrun & _).
  assert (Hex : existsb (element_matches t kwargs m) values = true).
  { apply existsb_exists. exists v. split; [apply list_elem_of_In, Hv|].
    apply template_matches_true, Hm. }
  rewrite Hex in Hrun.
  assert (Hloop : forall post,
             find_key_loop self field m (("does_not_exist", t) :: post) kwargs
             = Ok (Some "does_not_exist")).
  { intros post. simpl. rewrite Hvalue. simpl. rewrite Hrun. reflexivity. }
  repeat split; eauto.
  intros pre post Heq Hpre. rewrite find_key_unfold, Hkw. simpl.
  rewrite Heq, find_key_loop_skip by exact Hpre. rewrite Hloop. reflexivity.
Qed.

Lemma many_to_many_does_not_exist_witness :
  relation_typed shop tag_field = true
  /\ py_get (initial_data shop) "tags" = Ok (PList [PStr "a"; PStr "b"])
  /\ reconstructed shop tag_field "tags" = Ok tags_kwargs
  /\ assoc_get (error_messages tag_field) "does_not_exist"
     = Some "Object with {slug_name}={value} does not exist."
  /\ format "Object with {slug_name}={value} does not exist."
        (<["value" := PStr "a"]> tags_kwargs)
     = Ok "Object with slug=a does not exist."
  /\ find_key shop tag_field "Object with slug=a does not exist." "tags"
     = Ok (Some "does_not_exist").
Proof.
  repeat (split; [reflexivity|]).
  destruct (many_to_many_does_not_exist shop tag_field
              "Object with slug=a does not exist." "tags"
              [PStr "a"; PStr "b"] tags_kwargs
              "Object with {slug_name}={value} does not exist." (PStr "a")
              eq_refl eq_refl eq_refl eq_refl
              (list_elem_of_here _ _) eq_refl) as (_ & _ & _ & H).
  apply (H base_messages [("invalid", "Invalid value.")] eq_refl).
  intros kt Hin. apply list_elem_of_In in Hin. simpl in Hin.
  destruct Hin as [<-|[<-|[]]]; (split; [discriminate|reflexivity]).
Defined.

(** C10. The handler writes into the kwargs of [find_key]: when it has
    run over a list that is not empty and answered false, the kwargs that
    come back bind ['value'] to the last element of the list, and the rest
    of the pass, first the template of [does_not_exist] and then every
    later key, is formatted with them. *)
Theorem handler_miss_rebinds_value self field m kwargs values v kwargs' :
  kwargs !! "value" = Some (PList values) ->
  last values = Some v ->
  does_not_exist_many_to_many_handler self field m kwargs = Ok (false, kwargs') ->
  kwargs' = <["value" := v]> kwargs
  /\ kwargs' !! "value" = Some v
  /\ forall t rest,
       find_key_loop self field m (("does_not_exist", t) :: rest) kwargs
       = (do same <- format_eq t (<["value" := v]> kwargs) m;
          if (same : bool) then Ok (Some "does_not_exist")
          else find_key_loop self field m rest (<["value" := v]> kwargs))
       /\ ("does_not_exist" ∉ rest.*1 ->
           find_key_loop self field m rest (<["value" := v]> kwargs)
           = plain_loop m rest (<["value" := v]> kwargs)).
Proof.
  intros Hvalue Hlast Hrun.
  assert (Hkw : kwargs' = <["value" := v]> kwargs).
  { unfold does_not_exist_many_to_many_handler in Hrun.
    destruct (assoc_get (error_messages field) "does_not_exist") as [t|];
      [|discriminate].
    rewrite Hvalue in Hrun. simpl in Hrun.
    apply handler_loop_miss in Hrun as [-> _]. rewrite Hlast. reflexivity. }
  subst kwargs'. split; [reflexivity|]. split; [apply lookup_insert_eq|].
  intros t rest. split.
  - simpl. rewrite Hvalue. simpl. rewrite Hrun. reflexivity.
  - intros Hrest. apply find_key_loop_plain. right. exact Hrest.
Qed.

Lemma handler_miss_rebinds_value_witness :
  tags_kwargs !! "value" = Some (PList [PStr "a"; PStr "b"])
  /\ does_not_exist_many_to_many_handler shop echo_field "Invalid value b." tags_kwargs
     = Ok (false, <["value" := PStr "b"]> tags_kwargs)
  /\ find_key_loop shop echo_field "Invalid value b."
       (error_messages echo_field) tags_kwargs
     = Ok (Some "invalid")
  /\ first_formatted "Invalid value b." (error_messages echo_field) tags_kwargs
     = None.
Proof.
  split; [reflexivity|]. split; [reflexivity|].
  destruct (handler_miss_rebinds_value shop echo_field "Invalid value b."
              tags_kwargs [PStr "a"; PStr "b"] (PStr "b")
              (<["value" := PStr "b"]> tags_kwargs)
              eq_refl eq_refl eq_refl) as (_ & _ & H).
  destruct (H "Object with {slug_name}={value} does not exist."
              [("invalid", "Invalid value {value}.")]) as [H1 H2].
  split; [|reflexivity].
  change (error_messages echo_field)
    with [("does_not_exist", "Object with {slug_name}={value} does not exist.");
          ("invalid", "Invalid value {value}.")].
  rewrite H1. reflexivity.
Defined.

End TemplateMatcher.

(** ** The registered-error store *)

Section Registration.

Import Fixtures.

Variable settings : Settings.

Lemma is_none_true v : is_none v = true <-> v = PNone.
Proof. destruct v; simpl; split; congruence. Qed.

Lemma is_none_false v : is_none v = false <-> v <> PNone.
Proof. destruct v; simpl; split; congruence. Qed.

Ltac ok_case :=
  split;
  [ split;
    [ intros [msg Hm]; discriminate
    | intros H; decompose [or ex and] H; congruence ]
  | right; eexists; eexists; split; [reflexivity | apply lookup_insert_eq] ].

(** C8, as the code has it. [register_error] ends in a configuration
    error exactly when: there is no field name and no code; or the name
    is no field of the serializer; or there is a field name and neither
    key nor code; or there is a field name, no code, and a key for a
    class the catalog does not know or that the catalog of the class does
    not hold.  In every other case, a key given next to a code included,
    the entry is stored and the validation error that carries its key is
    raised. *)
Theorem register_error_configuration self m fn ek ec :
  ((exists msg, (register_error settings self m fn ek ec).2 = ValueError msg) <->
   (fn = None /\ ec = PNone)
   \/ (exists name, fn = Some name /\ assoc_get (fields self) name = None)
   \/ (exists name f, fn = Some name /\ assoc_get (fields self) name = Some f
                      /\ ek = None /\ ec = PNone)
   \/ (exists name f k,
         fn = Some name /\ assoc_get (fields self) name = Some f
         /\ ec = PNone /\ ek = Some k
         /\ (FRIENDLY_FIELD_ERRORS settings !! class_name f = None
             \/ exists catalog,
                  FRIENDLY_FIELD_ERRORS settings !! class_name f = Some catalog
                  /\ dict_get catalog k = PNone)))
  /\ ((exists msg, (register_error settings self m fn ek ec).2 = ValueError msg)
      \/ exists key e,
           (register_error settings self m fn ek ec).2 = ValidationError key
           /\ registered_errors (register_error settings self m fn ek ec).1 !! key
              = Some e).
Proof.
  assert (Hsome : forall k : string, bool_decide (Some k = @None string) = false)
    by (intros; apply bool_decide_eq_false_2; discriminate).
  assert (Hnone : bool_decide (@None string = None) = true)
    by (apply bool_decide_eq_true_2; reflexivity).
  unfold register_error.
  destruct fn as [name|]; simpl.
  - destruct (assoc_get (fields self) name) as [f|] eqn:Hf; simpl.
    + destruct ek as [k|]; rewrite ?Hsome, ?Hnone; simpl.
      * destruct (is_none ec) eqn:Hec; simpl.
        -- apply is_none_true in Hec as ->.
           destruct (FRIENDLY_FIELD_ERRORS settings !! class_name f)
             as [catalog|] eqn:Hc; simpl.
           ++ fold (dict_get catalog k).
              destruct (is_none (dict_get catalog k)) eqn:Hk; simpl.
              ** apply is_none_true in Hk.
                 split; [|left; eauto]. split; [|eauto].
                 intros _. right. right. right. exists name, f, k. eauto 10.
              ** apply is_none_false in Hk. ok_case.
           ++ split; [|left; eauto]. split; [|eauto].
              intros _. right. right. right. exists name, f, k. eauto 10.
        -- apply is_none_false in Hec. ok_case.
      * destruct (is_none ec) eqn:Hec; simpl.
        -- apply is_none_true in Hec as ->.
           split; [|left; eauto]. split; [|eauto].
           intros _. right. right. left. eauto 10.
        -- apply is_none_false in Hec. ok_case.
    + split; [|left; eauto]. split; [|eauto]. intros _. right. left. eauto.
  - destruct (is_none ec) eqn:Hec; simpl.
    + apply is_none_true in Hec as ->.
      split; [|left; eauto]. split; [|eauto]. intros _. left. auto.
    + apply is_none_false in Hec. ok_case.
Qed.

(** C8, as it is stated, does not hold: with a field name, a key and a
    code, two of the two are supplied, and the registration goes
    through with the code. *)
Lemma register_error_key_and_code :
  configuration_error_as_stated the_settings shop
    (Some "name") (Some "blank") (PInt 42) = true
  /\ (register_error the_settings shop "bad" (Some "name") (Some "blank") (PInt 42)).2
     = ValidationError "bad_42_name"
  /\ registered_errors
       (register_error the_settings shop "bad" (Some "name") (Some "blank") (PInt 42)).1
     !! "bad_42_name"
     = Some {| code := PInt 42; field := Some "name"; message := "bad" |}.
Proof. split; [reflexivity|split; reflexivity]. Qed.

Lemma registered_first_field self error e field :
  registered_errors self !! error = Some e ->
  get_field_error_entry settings self error field = Ok e.
Proof. intros H. unfold get_field_error_entry. rewrite H. reflexivity. Qed.

Lemma registered_first_non_field self error e :
  registered_errors self !! error = Some e ->
  get_non_field_error_entry settings self error = Ok e.
Proof. intros H. unfold get_non_field_error_entry. rewrite H. reflexivity. Qed.

(** A registration that goes through has resolved a code, and leaves the
    store and raises the key built from it. *)
Lemma register_error_success self m fn ek ec self' key :
  register_error settings self m fn ek ec = (self', ValidationError key) ->
  exists c,
    is_none c = false
    /\ (is_none ec = false -> c = ec)
    /\ (is_none ec = true ->
        exists name f catalog,
          fn = Some name /\ assoc_get (fields self) name = Some f
          /\ FRIENDLY_FIELD_ERRORS settings !! class_name f = Some catalog
          /\ c = dict_get_opt catalog ek)
    /\ key = m +:+ "_" +:+ py_str c +:+ "_" +:+ py_str (of_option_str fn)
    /\ registered_errors self'
       = <[key := {| code := c; field := fn; message := m |}]> (registered_errors self).
Proof.
  unfold register_error.
  destruct fn as [name|]; simpl.
  - destruct (assoc_get (fields self) name) as [f|] eqn:Hf; simpl;
      [|intros [= _ ?]; discriminate].
    destruct (bool_decide (ek = None) && is_none ec) eqn:Hboth; simpl;
      [intros [= _ ?]; discriminate|].
    destruct (is_none ec) eqn:Hec; simpl.
    + destruct (FRIENDLY_FIELD_ERRORS settings !! class_name f)
        as [catalog|] eqn:Hc; simpl; [|intros [= _ ?]; discriminate].
      destruct (is_none (dict_get_opt catalog ek)) eqn:Hk; simpl;
        [intros [= _ ?]; discriminate|].
      intros [= <- <-]. eexists. split; [exact Hk|]. split; [discriminate|].
      split; [intros _; eauto 10|]. split; reflexivity.
    + intros [= <- <-]. eexists. split; [exact Hec|]. split; [reflexivity|].
      split; [discriminate|]. split; reflexivity.
  - destruct (is_none ec) eqn:Hec; simpl; [intros [= _ ?]; discriminate|].
    intros [= <- <-]. eexists. split; [exact Hec|]. split; [reflexivity|].
    split; [discriminate|]. split; reflexivity.
Qed.

(** C2. When [register_error] gets past the configuration errors, it has
    resolved a code [c] (the code given, or else the one the catalog
    holds for the key), the store maps the key built from the message,
    the code and the field name to the entry of the three, the
    validation error raised carries that key, and from then on, as long
    as the store holds the entry, the field builder, for any field, and
    the non-field builder return that entry for a message equal to the
    key: neither gets as far as the matcher or a validator. *)
Theorem register_then_classify self m fn ek ec self' key :
  register_error settings self m fn ek ec = (self', ValidationError key) ->
  exists c,
    is_none c = false
    /\ (is_none ec = false -> c = ec)
    /\ (is_none ec = true ->
        exists name f catalog,
          fn = Some name /\ assoc_get (fields self) name = Some f
          /\ FRIENDLY_FIELD_ERRORS settings !! class_name f = Some catalog
          /\ c = dict_get_opt catalog ek)
    /\ key = m +:+ "_" +:+ py_str c +:+ "_" +:+ py_str (of_option_str fn)
    /\ registered_errors self' !! key
       = Some {| code := c; field := fn; message := m |}
    /\ (forall other, other <> key ->
          registered_errors self' !! other = registered_errors self !! other)
    /\ (forall field,
          get_field_error_entry settings self' key field
          = Ok {| code := c; field := fn; message := m |})
    /\ get_non_field_error_entry settings self' key
       = Ok {| code := c; field := fn; message := m |}
    /\ (forall later,
          registered_errors later !! key
          = Some {| code := c; field := fn; message := m |} ->
          (forall field,
              get_field_error_entry settings later key field
              = Ok {| code := c; field := fn; message := m |})
          /\ get_non_field_error_entry settings later key
             = Ok {| code := c; field := fn; message := m |}).
Proof.
  intros Hreg.
  destruct (register_error_success self m fn ek ec self' key Hreg)
    as (c & Hc & Hgiven & Hcatalog & Hkey & Hstore).
  assert (Hget : registered_errors self' !! key
                 = Some {| code := c; field := fn; message := m |})
    by (rewrite Hstore; apply lookup_insert_eq).
  exists c. repeat (split; [assumption|]).
  split; [intros other Hne; rewrite Hstore; apply lookup_insert_ne; congruence|].
  split; [intros field; apply registered_first_field, Hget|].
  split; [apply registered_first_non_field, Hget|].
  intros later Hlater.
  split; [intros field; apply registered_first_field, Hlater
         |apply registered_first_non_field, Hlater].
Qed.

End Registration.

Lemma register_error_configuration_witness :
  FRIENDLY_FIELD_ERRORS Fixtures.the_settings !! class_name Fixtures.name_field
  = Some (Fixtures.catalog [("required", 2007); ("null", 2027); ("blank", 2031);
                   ("max_length", 2041); ("min_length", 2051)])
  /\ (exists msg,
        (register_error Fixtures.the_settings Fixtures.shop "bad" (Some "name") (Some "unknown") PNone).2
        = ValueError msg)
  /\ ~ (exists msg,
          (register_error Fixtures.the_settings Fixtures.shop "bad" (Some "name") (Some "blank") PNone).2
          = ValueError msg).
Proof.
  split; [reflexivity|]. split.
  - apply (proj1 (register_error_configuration Fixtures.the_settings Fixtures.shop "bad"
                    (Some "name") (Some "unknown") PNone)).
    right. right. right. exists "name", Fixtures.name_field, "unknown".
    repeat (split; [reflexivity|]). right. eexists. split; reflexivity.
  - intros H.
    apply (proj1 (register_error_configuration Fixtures.the_settings Fixtures.shop "bad"
                    (Some "name") (Some "blank") PNone)) in H.
    destruct H as [[H _]|[(name & H & Hf)|[(name & f & _ & _ & H & _)
                  |(name & f & k & Hn & Hf & _ & Hk & [Hc|(c & Hc & Hd)])]]];
      try discriminate.
    + injection H as <-. discriminate Hf.
    + injection Hn as <-. injection Hf as <-. discriminate Hc.
    + injection Hn as <-. injection Hf as <-. injection Hk as <-.
      injection Hc as <-. discriminate Hd.
Defined.

Lemma register_then_classify_witness :
  register_error Fixtures.the_settings Fixtures.shop
    "Sold out" (Some "name") (Some "blank") PNone
  = ((register_error Fixtures.the_settings Fixtures.shop
        "Sold out" (Some "name") (Some "blank") PNone).1,
     ValidationError "Sold out_2031_name")
  /\ get_field_error_entry Fixtures.the_settings
       (register_error Fixtures.the_settings Fixtures.shop
          "Sold out" (Some "name") (Some "blank") PNone).1
       "Sold out_2031_name" Fixtures.when_field
     = Ok {| code := PInt 2031; field := Some "name"; message := "Sold out" |}.
Proof.
  split; [reflexivity|].
  assert (Hreg : register_error Fixtures.the_settings Fixtures.shop
                   "Sold out" (Some "name") (Some "blank") PNone
                 = ((register_error Fixtures.the_settings Fixtures.shop
                       "Sold out" (Some "name") (Some "blank") PNone).1,
                    ValidationError "Sold out_2031_name")) by reflexivity.
  destruct (register_then_classify Fixtures.the_settings Fixtures.shop
              "Sold out" (Some "name") (Some "blank") PNone _ _ Hreg)
    as (c & _ & _ & _ & Hkey & Hstore & _ & Hfield & _).
  assert (Hc : c = PInt 2031).
  { assert (H : registered_errors
                  (register_error Fixtures.the_settings Fixtures.shop
                     "Sold out" (Some "name") (Some "blank") PNone).1
                !! "Sold out_2031_name"
                = Some {| code := PInt 2031; field := Some "name";
                          message := "Sold out" |}) by reflexivity.
    rewrite H in Hstore. congruence. }
  rewrite <- Hc. apply Hfield.
Defined.

(** ** The entry of a field *)

Section Classification.

Import Fixtures.

Variable settings : Settings.

Lemma find_validator_loop_first self field m pre v post :
  (forall w, w ∈ pre ->
     exists r, _run_validator self w field m = Ok r /\ truthy r = false) ->
  _run_validator self v field m = Ok (PBool true) ->
  find_validator_loop self field m (pre ++ v :: post) = Ok (Some v).
Proof.
  intros Hpre Hv. induction pre as [|w pre IH]; simpl.
  - rewrite Hv. reflexivity.
  - destruct (Hpre w) as (r & -> & Hr); [left|]. simpl. rewrite Hr.
    apply IH. intros w' Hin. apply Hpre. right. exact Hin.
Qed.

Lemma find_validator_loop_None self field m vs :
  (forall w, w ∈ vs ->
     exists r, _run_validator self w field m = Ok r /\ truthy r = false) <->
  find_validator_loop self field m vs = Ok None.
Proof.
  induction vs as [|w vs IH]; simpl.
  - split; [reflexivity|]. intros _ w Hw. inversion Hw.
  - split.
    + intros H. destruct (H w) as (r & -> & Hr); [left|]. simpl. rewrite Hr.
      apply IH. intros w' Hin. apply H. right. exact Hin.
    + intros H w' Hin.
      destruct (_run_validator self w field m) as [r|] eqn:Hw; [|discriminate].
      simpl in H. destruct (truthy r) eqn:Hr; [discriminate|].
      apply elem_of_cons in Hin as [->|Hin]; [eauto|]. apply IH; assumption.
Qed.

(** C1, as the code has it. A message that is a key of the store gets the
    stored entry, as it was registered. Otherwise: when [find_key] finds
    a key that is not empty, the entry has the code the catalog holds for
    the class of the field and that key, which may be [None]; when
    [find_key] finds nothing, the first declared validator whose second
    run raises the message gives its code, that of the serializer when
    it holds one that is not falsy and else that of the settings; when
    no declared validator does, the [validate_<field_name>] method of
    the serializer, under the same test, gives its code; and when nothing
    matches the entry has the code [None].  Every entry built outside
    the store carries the message and the name of the field.  (When
    [find_key] or a validator raises, no entry is built.) *)
Theorem get_field_error_entry_priority self m fld :
  let name := field_name fld in
  let entry c := {| code := c; field := Some name; message := m |} in
  let hook := assoc_get (methods self) ("validate_" +:+ name) in
  (forall e, registered_errors self !! m = Some e ->
             get_field_error_entry settings self m fld = Ok e)
  /\ (registered_errors self !! m = None ->
      (forall k, find_key self fld m name = Ok (Some k) -> k <> "" ->
         get_field_error_entry settings self m fld
         = Ok (entry (field_code settings (class_name fld) (Some k))))
      /\ (find_key self fld m name = Ok None ->
          (forall pre v post,
              validators fld = pre ++ v :: post ->
              (forall w, w ∈ pre ->
                 exists r, _run_validator self w fld m = Ok r /\ truthy r = false) ->
              _run_validator self v fld m = Ok (PBool true) ->
              get_field_error_entry settings self m fld
              = Ok (entry (validator_code settings self (v_name v))))
          /\ ((forall w, w ∈ validators fld ->
                 exists r, _run_validator self w fld m = Ok r /\ truthy r = false) ->
              (forall h, hook = Some h ->
                 _run_validator self h fld m = Ok (PBool true) ->
                 get_field_error_entry settings self m fld
                 = Ok (entry (validator_code settings self (v_name h))))
              /\ (hook = None
                  \/ (exists h r, hook = Some h
                                  /\ _run_validator self h fld m = Ok r
                                  /\ truthy r = false) ->
                  get_field_error_entry settings self m fld = Ok (entry PNone))))
      /\ (forall e, get_field_error_entry settings self m fld = Ok e ->
            message e = m /\ field e = Some name))
  /\ (forall v c, FIELD_VALIDATION_ERRORS self !! v = Some c -> truthy c = true ->
        validator_code settings self v = c)
  /\ (forall v, FIELD_VALIDATION_ERRORS self !! v = None ->
        validator_code settings self v
        = dict_get (FRIENDLY_VALIDATOR_ERRORS settings) v).
Proof.
  intros name entry hook. split; [|split; [|split]].
  - intros e He. unfold get_field_error_entry. rewrite He. reflexivity.
  - intros Hreg. unfold get_field_error_entry. rewrite Hreg. fold name.
    split; [|split].
    + intros k Hk Hne. rewrite Hk. simpl.
      assert (Hnot : not_key (Some k) = false).
      { unfold not_key. simpl. apply String.eqb_neq in Hne. rewrite Hne. reflexivity. }
      rewrite Hnot. reflexivity.
    + intros Hk. rewrite Hk. simpl. split.
      * intros pre v post Hvs Hpre Hv. unfold find_validator. rewrite Hvs.
        rewrite (find_validator_loop_first self fld m pre v post Hpre Hv).
        reflexivity.
      * intros Hnone. apply find_validator_loop_None in Hnone.
        unfold find_validator. rewrite Hnone. simpl. fold hook. split.
        -- intros h -> Hh. rewrite Hh. reflexivity.
        -- intros [->|(h & r & -> & -> & Hr)]; [reflexivity|].
           simpl. rewrite Hr. reflexivity.
    + intros e.
      destruct (find_key self fld m name) as [key|]; [|discriminate]. simpl.
      destruct (not_key key).
      * destruct (find_validator self fld m) as [[v|]|]; simpl;
          [intros [= <-]; auto| |discriminate].
        fold hook. destruct hook as [h|]; [|intros [= <-]; auto].
        destruct (_run_validator self h fld m) as [r|]; [|discriminate]. simpl.
        destruct (truthy r); intros [= <-]; auto.
      * intros [= <-]; auto.
  - intros v c Hv Hc. unfold validator_code, py_or, dict_get. rewrite Hv. simpl.
    rewrite Hc. reflexivity.
  - intros v Hv. unfold validator_code, py_or, dict_get at 1 2. rewrite Hv. reflexivity.
Qed.

End Classification.

Lemma get_field_error_entry_priority_witness :
  registered_errors (Fixtures.accounts "taken@example.com")
    !! "This field must be unique." = None
  /\ find_key (Fixtures.accounts "taken@example.com") Fixtures.email_field
       "This field must be unique." "email" = Ok None
  /\ _run_validator (Fixtures.accounts "taken@example.com")
       Fixtures.unique_validator Fixtures.email_field "This field must be unique."
     = Ok (PBool true)
  /\ get_field_error_entry Fixtures.the_settings
       (Fixtures.accounts "taken@example.com")
       "This field must be unique." Fixtures.email_field
     = Ok {| code := PInt 3001; field := Some "email";
             message := "This field must be unique." |}.
Proof.
  repeat (split; [reflexivity|]).
  destruct (get_field_error_entry_priority Fixtures.the_settings
              (Fixtures.accounts "taken@example.com")
              "This field must be unique." Fixtures.email_field)
    as (_ & Hfresh & _).
  destruct (Hfresh eq_refl) as (_ & Hunmatched & _).
  destruct (Hunmatched eq_refl) as (Hvalidator & _).
  rewrite (Hvalidator [] Fixtures.unique_validator [] eq_refl);
    [reflexivity|intros w Hw; inversion Hw|reflexivity].
Defined.

(** C1, as it is stated, does not hold: neither the store nor a validator
    is involved, the plain first-match rule finds [overflow], whose code
    the catalog leaves at [None], and no entry is built: the
    [make_aware] template, tried before, asks for a time zone and
    [find_key] raises. *)
Lemma get_field_error_entry_raises :
  registered_errors Fixtures.shop !! "Datetime value out of range." = None
  /\ matcher_as_stated Fixtures.shop Fixtures.when_field
       "Datetime value out of range." "when" = Some "overflow"
  /\ get_field_error_entry Fixtures.the_settings Fixtures.shop
       "Datetime value out of range." Fixtures.when_field
     = Raise (KeyError "timezone")
  /\ ~ exists e,
        get_field_error_entry Fixtures.the_settings Fixtures.shop
          "Datetime value out of range." Fixtures.when_field = Ok e.
Proof.
  split; [reflexivity|]. split; [reflexivity|]. split; [reflexivity|].
  intros [e He]. discriminate He.
Qed.

(** The three sources of a code, one after the other. *)
Example entry_of_template :
  get_field_error_entry Fixtures.the_settings Fixtures.shop
    "Ensure this field has no more than 10 characters." Fixtures.name_field
  = Ok {| code := PInt 2041; field := Some "name";
          message := "Ensure this field has no more than 10 characters." |}.
Proof. reflexivity. Qed.

Example entry_of_validator :
  get_field_error_entry Fixtures.the_settings
    (Fixtures.accounts "taken@example.com")
    "This field must be unique." Fixtures.email_field
  = Ok {| code := PInt 3001; field := Some "email";
          message := "This field must be unique." |}.
Proof. reflexivity. Qed.

Example entry_of_method :
  get_field_error_entry Fixtures.the_settings
    (Fixtures.accounts "root@example.com")
    "This address is reserved." Fixtures.email_field
  = Ok {| code := PInt 5001; field := Some "email";
          message := "This address is reserved." |}.
Proof. reflexivity. Qed.

Example entry_of_nothing :
  get_field_error_entry Fixtures.the_settings
    (Fixtures.accounts "someone@example.com")
    "No such domain." Fixtures.email_field
  = Ok {| code := PNone; field := Some "email"; message := "No such domain." |}.
Proof. reflexivity. Qed.

(** ** The flattener *)

Section Flattener.

Import Fixtures.

Variable settings : Settings.

Lemma map_result_length {A B} (f : A -> result B) l out :
  map_result f l = Ok out -> length out = length l.
Proof.
  revert out. induction l as [|x l IH]; simpl; intros out.
  - intros [= <-]. reflexivity.
  - destruct (f x); [|discriminate]. simpl.
    destruct (map_result f l); [|discriminate]. simpl.
    intros [= <-]. simpl. f_equal. apply IH. reflexivity.
Qed.

Lemma map_result_Forall2 {A B} (f : A -> result B) l outs :
  Forall2 (fun x y => f x = Ok y) l outs -> map_result f l = Ok outs.
Proof.
  induction 1 as [|x y l outs Hxy _ IH]; simpl; [reflexivity|].
  rewrite Hxy. simpl. rewrite IH. reflexivity.
Qed.

Lemma process_sub_serializer_errors_eq self d error_type nf :
  get_non_field_error_entries settings self (default [] (ed_non_field_errors d))
  = Ok nf ->
  process_sub_serializer_errors settings self d error_type
  = Ok ((default_field error_type <$> default [] (ed_errors d)) ++ (Leaf <$> nf)).
Proof.
  unfold process_sub_serializer_errors.
  destruct (ed_non_field_errors d) as [l|]; simpl.
  - intros ->. reflexivity.
  - intros [= <-]. simpl. rewrite app_nil_r. reflexivity.
Qed.

(** C5. When the nested serializer gives a dictionary, the flattener
    appends one wrapper with the code 2901 and the name of the parent
    field, whose list is the entries of the nested result in their order,
    each with the name of the parent field where it had none, followed
    by the entries the non-field builder gives for the non-field errors
    of the nested result.  When it gives a list, each dictionary of the
    list is flattened on its own by the same rule, and the wrapper has
    the code 2902 and the list of these lists. *)
Theorem process_sub_serializer_wraps self pretty serializer error_type :
  (forall d nf,
      get_sub_serializer_errors self serializer error_type = Ok (ErrDict d) ->
      get_non_field_error_entries settings self
        (default [] (ed_non_field_errors d)) = Ok nf ->
      process_sub_serializer settings self pretty serializer error_type
      = Ok (pretty ++
            [Nested (PInt 2901) (Some error_type)
               ((default_field error_type <$> default [] (ed_errors d))
                ++ (Leaf <$> nf))]))
  /\ (forall l outs,
      get_sub_serializer_errors self serializer error_type = Ok (ErrList l) ->
      Forall2
        (fun d out =>
           exists nf,
             get_non_field_error_entries settings self
               (default [] (ed_non_field_errors d)) = Ok nf
             /\ out = (default_field error_type <$> default [] (ed_errors d))
                      ++ (Leaf <$> nf))
        l outs ->
      process_sub_serializer settings self pretty serializer error_type
      = Ok (pretty ++ [NestedMany (PInt 2902) (Some error_type) outs]))
  /\ (forall e, error_field e = None ->
                error_field (default_field error_type e) = Some error_type)
  /\ (forall e, error_field e <> None -> default_field error_type e = e)
  /\ (forall e, default_field error_type (Leaf e)
                = Leaf {| code := code e;
                          field := Some (default error_type (field e));
                          message := message e |}).
Proof.
  split; [|split; [|split; [|split]]].
  - intros d nf Hsub Hnf. unfold process_sub_serializer. rewrite Hsub. simpl.
    rewrite (process_sub_serializer_errors_eq self d error_type nf Hnf).
    reflexivity.
  - intros l outs Hsub Hall. unfold process_sub_serializer. rewrite Hsub. simpl.
    rewrite (map_result_Forall2 _ l outs); [reflexivity|].
    eapply Forall2_impl; [exact Hall|].
    intros d out (nf & Hnf & ->). apply process_sub_serializer_errors_eq, Hnf.
  - intros e He. unfold default_field. rewrite bool_decide_eq_true_2 by exact He.
    destruct e; reflexivity.
  - intros e He. unfold default_field. rewrite bool_decide_eq_false_2 by exact He.
    reflexivity.
  - intros [c [f|] msg]; reflexivity.
Qed.

(** C4. For an entry of the raw error map whose field is a nested
    serializer, over a payload that is a dictionary, the nested branch is
    entered exactly when the payload has the name of the field as a key:
    then the turn is [process_sub_serializer], over the value submitted
    under that name, and what it appends is one wrapper; when the name
    is missing, the turn classifies the messages with the field builder
    and appends one leaf entry for each message, and no wrapper. *)
Theorem nested_iff_supplied self pretty error_type messages field serializer d :
  error_type <> "non_field_errors" ->
  assoc_get (fields self) error_type = Some field ->
  as_serializer field = Some serializer ->
  initial_data self = PDict d ->
  (enters_nested self field error_type = Ok (Some serializer)
   <-> is_Some (assoc_get d error_type))
  /\ (forall v, assoc_get d error_type = Some v ->
      build_pretty_step settings self pretty error_type messages
      = process_sub_serializer settings self pretty serializer error_type
      /\ py_get (initial_data self) error_type = Ok v
      /\ forall out,
           process_sub_serializer settings self pretty serializer error_type = Ok out ->
           exists wrapped, out = pretty ++ [wrapped] /\ is_wrapper wrapped = true)
  /\ (assoc_get d error_type = None ->
      enters_nested self field error_type = Ok None
      /\ build_pretty_step settings self pretty error_type messages
         = (do entries <- get_field_error_entries settings self messages field;
            Ok (pretty ++ (Leaf <$> entries)))
      /\ forall out,
           build_pretty_step settings self pretty error_type messages = Ok out ->
           exists entries,
             out = pretty ++ (Leaf <$> entries)
             /\ length entries = length messages).
Proof.
  intros Hne Hfield Hser Hdata.
  assert (Henter : enters_nested self field error_type
                   = Ok (if bool_decide (is_Some (assoc_get d error_type))
                         then Some serializer else None)).
  { unfold enters_nested. rewrite Hser, Hdata. reflexivity. }
  assert (Hstep : build_pretty_step settings self pretty error_type messages
                  = match (if bool_decide (is_Some (assoc_get d error_type))
                           then Some serializer else None) with
                    | Some serializer =>
                        process_sub_serializer settings self pretty serializer error_type
                    | None =>
                        do entries <- get_field_error_entries settings self messages field;
                        Ok (pretty ++ (Leaf <$> entries))
                    end).
  { unfold build_pretty_step. apply String.eqb_neq in Hne. rewrite Hne, Hfield, Henter.
    reflexivity. }
  split; [|split].
  - rewrite Henter. case_bool_decide as Hd; split; intros H; try assumption;
      try reflexivity; try discriminate. contradiction.
  - intros v Hv. rewrite Hstep, bool_decide_eq_true_2 by (rewrite Hv; eauto).
    split; [reflexivity|]. split; [rewrite Hdata; simpl; rewrite Hv; reflexivity|].
    intros out. unfold process_sub_serializer.
    destruct (get_sub_serializer_errors self serializer error_type) as [[e|l]|];
      simpl; [| |discriminate].
    + destruct (process_sub_serializer_errors settings self e error_type);
        [|discriminate]. simpl. intros [= <-]. eexists. split; reflexivity.
    + destruct (map_result _ l); [|discriminate]. simpl. intros [= <-].
      eexists. split; reflexivity.
  - intros Hv.
    assert (Hd : bool_decide (is_Some (assoc_get d error_type)) = false)
      by (apply bool_decide_eq_false_2; rewrite Hv; intros [? ?]; discriminate).
    rewrite Henter, Hstep, Hd. split; [reflexivity|]. split; [reflexivity|].
    intros out.
    destruct (get_field_error_entries settings self messages field) as [entries|] eqn:He;
      [|discriminate].
    simpl. intros [= <-]. exists entries. split; [reflexivity|].
    unfold get_field_error_entries in He. eapply map_result_length, He.
Qed.

End Flattener.

Lemma nested_iff_supplied_witness :
  assoc_get (fields (Fixtures.order (PDict [("name", PStr "n")]))) "profile"
  = Some Fixtures.profile_field
  /\ build_pretty_step Fixtures.the_settings
       (Fixtures.order (PDict [("name", PStr "n")])) []
       "profile" ["This field is required."]
     = Ok [Leaf {| code := PNone; field := Some "profile";
                   message := "This field is required." |}]
  /\ build_pretty_step Fixtures.the_settings
       (Fixtures.order (PDict [("name", PStr "n"); ("profile", PDict [])])) []
       "profile" ["This field is required."]
     = Ok [Nested (PInt 2901) (Some "profile")
             [Leaf {| code := PInt 2007; field := Some "name";
                      message := "This field is required." |}]].
Proof.
  split; [reflexivity|]. split.
  - destruct (nested_iff_supplied Fixtures.the_settings
                (Fixtures.order (PDict [("name", PStr "n")])) []
                "profile" ["This field is required."] Fixtures.profile_field
                (friendly_nested Fixtures.the_settings
                   (Fixtures.serializer_of PNone [Fixtures.name_field])
                   Fixtures.profile_validation)
                [("name", PStr "n")])
      as (_ & _ & Habsent);
      [discriminate|reflexivity|reflexivity|reflexivity|].
    destruct (Habsent eq_refl) as (_ & -> & _). reflexivity.
  - destruct (nested_iff_supplied Fixtures.the_settings
                (Fixtures.order (PDict [("name", PStr "n"); ("profile", PDict [])])) []
                "profile" ["This field is required."] Fixtures.profile_field
                (friendly_nested Fixtures.the_settings
                   (Fixtures.serializer_of PNone [Fixtures.name_field])
                   Fixtures.profile_validation)
                [("name", PStr "n"); ("profile", PDict [])])
      as (_ & Hpresent & _);
      [discriminate|reflexivity|reflexivity|reflexivity|].
    destruct (Hpresent (PDict []) eq_refl) as (-> & _). reflexivity.
Defined.

Lemma process_sub_serializer_wraps_witness :
  get_sub_serializer_errors (Fixtures.order (PDict [("profile", PStr "x")]))
    (friendly_nested Fixtures.the_settings
       (Fixtures.serializer_of PNone [Fixtures.name_field])
       Fixtures.profile_validation)
    "profile"
  = Ok (ErrDict
          {| ed_errors :=
               Some [Leaf {| code := PInt 1001; field := None;
                             message :=
                               "Invalid data. Expected a dictionary, but got str." |}];
             ed_non_field_errors := None |})
  /\ process_sub_serializer Fixtures.the_settings
       (Fixtures.order (PDict [("profile", PStr "x")])) []
       (friendly_nested Fixtures.the_settings
          (Fixtures.serializer_of PNone [Fixtures.name_field])
          Fixtures.profile_validation)
       "profile"
     = Ok [Nested (PInt 2901) (Some "profile")
             [Leaf {| code := PInt 1001; field := Some "profile";
                      message :=
                        "Invalid data. Expected a dictionary, but got str." |}]].
Proof.
  split; [reflexivity|].
  destruct (process_sub_serializer_wraps Fixtures.the_settings
              (Fixtures.order (PDict [("profile", PStr "x")])) []
              (friendly_nested Fixtures.the_settings
                 (Fixtures.serializer_of PNone [Fixtures.name_field])
                 Fixtures.profile_validation)
              "profile") as (Hsingle & _).
  rewrite (Hsingle _ [] eq_refl eq_refl). reflexivity.
Defined.

(** ** What the classification raises *)

Section Propagation.

Variable settings : Settings.
Implicit Types kwargs : kwargs_t.

Lemma map_result_first_to_raise {A B} (f : A -> result B)
    (raises : A -> exn -> Prop) l e :
  (forall x e, f x = Raise e <-> raises x e) ->
  map_result f l = Raise e <-> first_to_raise raises l e.
Proof.
  intros Hf. induction l as [|x l IH]; simpl.
  - split; [discriminate|]. intros (pre & y & post & H & _). destruct pre; discriminate.
  - destruct (f x) as [y|e'] eqn:Hx; simpl.
    + assert (Hnot : forall e', ~ raises x e')
        by (intros e' H; apply Hf in H; congruence).
      split.
      * intros H.
        assert (Hl : map_result f l = Raise e)
          by (destruct (map_result f l); [discriminate|exact H]).
        apply IH in Hl as (pre & z & post & -> & Hpre & Hz).
        exists (x :: pre), z, post. split; [reflexivity|]. split; [|exact Hz].
        intros w e' [->|Hin]%elem_of_cons; [apply Hnot|apply Hpre, Hin].
      * intros (pre & z & post & Heq & Hpre & Hz). destruct pre as [|w pre].
        -- simpl in Heq. injection Heq as <- _. destruct (Hnot e Hz).
        -- simpl in Heq. injection Heq as <- ->.
           assert (Hl : map_result f (pre ++ z :: post) = Raise e).
           { apply IH. exists pre, z, post. split; [reflexivity|].
             split; [|exact Hz]. intros w' e' Hin. apply Hpre. right. exact Hin. }
           rewrite Hl. reflexivity.
    + split.
      * intros [= <-]. exists [], x, l. split; [reflexivity|].
        split; [|apply Hf, Hx]. intros w e'' Hin. inversion Hin.
      * intros (pre & z & post & Heq & Hpre & Hz). destruct pre as [|w pre].
        -- simpl in Heq. injection Heq as <- _. apply Hf in Hz. congruence.
        -- simpl in Heq. injection Heq as <- _.
           destruct (Hpre x e'); [left|]. apply Hf, Hx.
Qed.

Lemma find_key_loop_turn self field m key unformatted rest kwargs :
  find_key_loop self field m ((key, unformatted) :: rest) kwargs
  = do (hit, kwargs) <- handler_turn self field m key kwargs;
    if (hit : bool) then Ok (Some key)
    else
      do same <- format_eq unformatted kwargs m;
      if (same : bool) then Ok (Some key)
      else find_key_loop self field m rest kwargs.
Proof. reflexivity. Qed.

Lemma format_eq_raise unformatted kwargs m e :
  format_eq unformatted kwargs m = Raise e <-> format unformatted kwargs = Raise e.
Proof.
  unfold format_eq. destruct (format unformatted kwargs); simpl; split; congruence.
Qed.

Lemma find_key_loop_raises self field m items : forall kwargs e,
  find_key_loop self field m items kwargs = Raise e
  <-> loop_raises self field m items kwargs e.
Proof.
  induction items as [|[key unformatted] items IH]; intros kwargs e.
  - simpl. split; [discriminate|].
    intros (pre & k & t & post & kw & H & _). destruct pre; discriminate.
  - rewrite find_key_loop_turn.
    destruct (handler_turn self field m key kwargs) as [[hit kw]|e'] eqn:Hturn; simpl.
    + destruct hit.
      * split; [discriminate|].
        intros (pre & k & t & post & kw' & Heq & Hpre & Hk).
        destruct pre as [|[k0 t0] pre]; simpl in Heq, Hpre.
        -- injection Heq as <- <- _. injection Hpre as <-.
           rewrite Hturn in Hk. destruct Hk as [Hk|(kw'' & Hk & _)]; discriminate.
        -- injection Heq as <- <- _. rewrite Hturn in Hpre. discriminate.
      * destruct (format_eq unformatted kw m) as [same|e'] eqn:Hfmt; simpl.
        -- destruct same.
           ++ split; [discriminate|].
              intros (pre & k & t & post & kw' & Heq & Hpre & Hk).
              destruct pre as [|[k0 t0] pre]; simpl in Heq, Hpre.
              ** injection Heq as <- <- _. injection Hpre as <-.
                 rewrite Hturn in Hk.
                 destruct Hk as [Hk|(kw'' & [= <-] & Hk)]; [discriminate|].
                 apply (proj2 (format_eq_raise _ _ m _)) in Hk. congruence.
              ** injection Heq as <- <- _. rewrite Hturn, Hfmt in Hpre. discriminate.
           ++ rewrite IH. split.
              ** intros (pre & k & t & post & kw' & -> & Hpre & Hk).
                 exists ((key, unformatted) :: pre), k, t, post, kw'.
                 split; [reflexivity|]. split; [|exact Hk].
                 simpl. rewrite Hturn, Hfmt. exact Hpre.
              ** intros (pre & k & t & post & kw' & Heq & Hpre & Hk).
                 destruct pre as [|[k0 t0] pre]; simpl in Heq, Hpre.
                 --- injection Heq as <- <- _. injection Hpre as <-.
                     rewrite Hturn in Hk.
                     destruct Hk as [Hk|(kw'' & [= <-] & Hk)]; [discriminate|].
                     apply (proj2 (format_eq_raise _ _ m _)) in Hk. congruence.
                 --- injection Heq as <- <- ->. rewrite Hturn, Hfmt in Hpre.
                     exists pre, k, t, post, kw'. auto.
        -- split.
           ++ intros [= <-]. exists [], key, unformatted, items, kwargs.
              split; [reflexivity|]. split; [reflexivity|]. right.
              exists kw. split; [exact Hturn|].
              apply (proj1 (format_eq_raise _ _ m _)), Hfmt.
           ++ intros (pre & k & t & post & kw' & Heq & Hpre & Hk).
              destruct pre as [|[k0 t0] pre]; simpl in Heq, Hpre.
              ** injection Heq as <- <- _. injection Hpre as <-.
                 rewrite Hturn in Hk.
                 destruct Hk as [Hk|(kw'' & [= <-] & Hk)]; [discriminate|].
                 apply (proj2 (format_eq_raise _ _ m _)) in Hk. congruence.
              ** injection Heq as <- <- _. rewrite Hturn, Hfmt in Hpre. discriminate.
    + split.
      * intros [= <-]. exists [], key, unformatted, items, kwargs.
        split; [reflexivity|]. split; [reflexivity|]. left. exact Hturn.
      * intros (pre & k & t & post & kw' & Heq & Hpre & Hk).
        destruct pre as [|[k0 t0] pre]; simpl in Heq, Hpre.
        -- injection Heq as <- <- _. injection Hpre as <-.
           rewrite Hturn in Hk.
           destruct Hk as [Hk|(kw'' & Hk & _)]; congruence.
        -- injection Heq as <- <- _. rewrite Hturn in Hpre. discriminate.
Qed.

Lemma find_key_loop_misses self field m items : forall kwargs,
  find_key_loop self field m items kwargs = Ok None
  <-> is_Some (turns_miss self field m items kwargs).
Proof.
  induction items as [|[key unformatted] items IH]; intros kwargs.
  - simpl. split; eauto.
  - rewrite find_key_loop_turn. simpl.
    destruct (handler_turn self field m key kwargs) as [[[] kw]|e']; simpl;
      try (split; [discriminate|intros [? ?]; discriminate]).
    destruct (format_eq unformatted kw m) as [[]|e']; simpl;
      try (split; [discriminate|intros [? ?]; discriminate]).
    apply IH.
Qed.

Lemma find_key_raises_unfold self field m name e :
  find_key_raises self field m name e
  = match reconstructed self field name with
    | Raise e' => e = e'
    | Ok kwargs =>
        loop_raises self field m (error_messages field) kwargs e
        \/ (is_Some (turns_miss self field m (error_messages field) kwargs)
            /\ match child_relation field with
               | Some child => find_key_raises self child m name e
               | None => False
               end)
    end.
Proof. destruct field as [? ? ? ? [child|] ? ? ? ? ? ? ? ? ? ?]; reflexivity. Qed.

Lemma find_key_raises_iff (field : Field) : forall self m name e,
  find_key self field m name = Raise e <-> find_key_raises self field m name e.
Proof.
  revert field. fix IH 1. intros field self m name e.
  rewrite find_key_unfold, find_key_raises_unfold.
  destruct (reconstructed self field name) as [kwargs|e0]; simpl;
    [|split; congruence].
  rewrite <- find_key_loop_raises, <- find_key_loop_misses.
  destruct (find_key_loop self field m (error_messages field) kwargs)
    as [[key|]|e0]; simpl.
  - split; [discriminate|]. intros [H|[H _]]; discriminate.
  - destruct field as [? ? ? ? [child|] ? ? ? ? ? ? ? ? ? ?]; simpl.
    + rewrite IH. split; [auto|]. intros [H|[_ H]]; [discriminate|exact H].
    + split; [discriminate|]. intros [H|[_ []]]. discriminate.
  - split; [auto|]. intros [H|[H _]]; [exact H|discriminate].
Qed.

Lemma run_validator_raises self field v m e :
  _run_validator self v field m = Raise e <-> validator_raises self field v e.
Proof.
  unfold _run_validator, validator_raises.
  destruct (in_names "value" (v_args v)); simpl.
  - destruct (py_getitem (initial_data self) (field_name field)) as [value|e'];
      simpl; [|split; congruence].
    destruct (v_call v _) as [| |[|]|]; split; try congruence; try tauto.
  - destruct (v_call v _) as [| |[|]|]; split; try congruence; try tauto.
Qed.

Lemma find_validator_loop_raises self field m vs e :
  find_validator_loop self field m vs = Raise e <->
  exists pre v post,
    vs = pre ++ v :: post
    /\ (forall w, w ∈ pre -> is_miss (_run_validator self w field m))
    /\ validator_raises self field v e.
Proof.
  induction vs as [|w vs IH]; simpl.
  - split; [discriminate|]. intros (pre & v & post & H & _). destruct pre; discriminate.
  - destruct (_run_validator self w field m) as [r|e'] eqn:Hw; simpl.
    + destruct (truthy r) eqn:Hr.
      * split; [discriminate|].
        intros (pre & v & post & Heq & Hpre & Hv). destruct pre as [|w' pre].
        -- simpl in Heq. injection Heq as <- _.
           apply run_validator_raises with (m := m) in Hv. congruence.
        -- simpl in Heq. injection Heq as <- _.
           destruct (Hpre w) as (r' & Hr' & Hm); [left|]. congruence.
      * rewrite IH. split.
        -- intros (pre & v & post & -> & Hpre & Hv). exists (w :: pre), v, post.
           split; [reflexivity|]. split; [|exact Hv].
           intros w' [->|Hin]%elem_of_cons; [exists r; auto|auto].
        -- intros (pre & v & post & Heq & Hpre & Hv). destruct pre as [|w' pre].
           ++ simpl in Heq. injection Heq as <- _.
              apply run_validator_raises with (m := m) in Hv. congruence.
           ++ simpl in Heq. injection Heq as <- ->. exists pre, v, post.
              split; [reflexivity|]. split; [|exact Hv].
              intros w' Hin. apply Hpre. right. exact Hin.
    + split.
      * intros [= <-]. exists [], w, vs. split; [reflexivity|].
        split; [|apply run_validator_raises with (m := m), Hw].
        intros w' Hin. inversion Hin.
      * intros (pre & v & post & Heq & Hpre & Hv). destruct pre as [|w' pre].
        -- simpl in Heq. injection Heq as <- _.
           apply run_validator_raises with (m := m) in Hv. congruence.
        -- simpl in Heq. injection Heq as <- _.
           destruct (Hpre w) as (r' & Hr' & Hm); [left|]. congruence.
Qed.

Lemma find_validator_loop_misses self field m vs :
  find_validator_loop self field m vs = Ok None <->
  forall w, w ∈ vs -> is_miss (_run_validator self w field m).
Proof.
  induction vs as [|w vs IH]; simpl.
  - split; [|reflexivity]. intros _ w Hin. inversion Hin.
  - destruct (_run_validator self w field m) as [r|e'] eqn:Hw; simpl.
    + destruct (truthy r) eqn:Hr.
      * split; [discriminate|]. intros H.
        destruct (H w) as (r' & Hr' & Hm); [left|]. congruence.
      * rewrite IH. split.
        -- intros H w' [->|Hin]%elem_of_cons; [exists r; auto|auto].
        -- intros H w' Hin. apply H. right. exact Hin.
    + split; [discriminate|]. intros H.
      destruct (H w) as (r' & Hr' & Hm); [left|]. congruence.
Qed.

Lemma field_entry_raises_iff self field m e :
  get_field_error_entry settings self m field = Raise e
  <-> field_message_raises self field m e.
Proof.
  unfold get_field_error_entry, field_message_raises, validators_raise.
  destruct (registered_errors self !! m) as [r|];
    [split; [discriminate|intros [H _]; discriminate]|].
  rewrite <- find_key_raises_iff.
  destruct (find_key self field m (field_name field)) as [key|e0]; simpl.
  2: { split; [intros [= <-]; split; [reflexivity|left; reflexivity]|].
       intros [_ [H|[(k & H & _) _]]]; congruence. }
  destruct (not_key key) eqn:Hnot.
  2: { split; [discriminate|].
       intros [_ [H|[(k & [= <-] & Hk) _]]]; [discriminate|congruence]. }
  unfold find_validator.
  rewrite <- (find_validator_loop_raises self field m (validators field) e).
  rewrite <- (find_validator_loop_misses self field m (validators field)).
  destruct (find_validator_loop self field m (validators field)) as [[v|]|e0]; simpl.
  - split; [discriminate|].
    intros [_ [H|[_ [H|[H _]]]]]; discriminate.
  - destruct (assoc_get (methods self) ("validate_" +:+ field_name field)) as [h|].
    + destruct (_run_validator self h field m) as [r|e0] eqn:Hh; simpl.
      * split; [destruct (truthy r); discriminate|].
        intros [_ [H|[_ [H|[_ (h' & [= <-] & H)]]]]]; try discriminate.
        apply (proj2 (run_validator_raises self field h m e)) in H. congruence.
      * split.
        -- intros [= <-]. split; [reflexivity|]. right. split; [eauto|].
           right. split; [reflexivity|]. exists h. split; [reflexivity|].
           apply (proj1 (run_validator_raises self field h m e0)), Hh.
        -- intros [_ [H|[_ [H|[_ (h' & [= <-] & H)]]]]]; try discriminate.
           apply (proj2 (run_validator_raises self field h m e)) in H. congruence.
    + split; [discriminate|].
      intros [_ [H|[_ [H|[_ (h' & H & _)]]]]]; discriminate.
  - split.
    + intros [= <-]. split; [reflexivity|]. right. split; [eauto|]. left. reflexivity.
    + intros [_ [H|[_ [H|[H _]]]]]; congruence.
Qed.

Lemma non_field_entry_raises_iff self m e :
  get_non_field_error_entry settings self m = Raise e
  <-> non_field_message_raises settings self m e.
Proof.
  unfold get_non_field_error_entry, non_field_message_raises.
  destruct (registered_errors self !! m) as [r|];
    [split; [discriminate|intros [H _]; discriminate]|].
  rewrite <- format_eq_raise with (m := m).
  destruct (format_eq _ _ m) as [[]|e0]; simpl; split; try discriminate;
    try (intros [_ H]; discriminate); try (intros [= <-]; auto).
  intros [_ H]. congruence.
Qed.

Lemma sub_serializer_errors_raises_iff self d error_type e :
  process_sub_serializer_errors settings self d error_type = Raise e
  <-> error_dict_raises settings self d e.
Proof.
  unfold process_sub_serializer_errors, error_dict_raises.
  destruct (ed_non_field_errors d) as [l|].
  - unfold get_non_field_error_entries.
    pose proof (fun e => map_result_first_to_raise
                  (get_non_field_error_entry settings self)
                  (non_field_message_raises settings self) l e
                  (non_field_entry_raises_iff self)) as Hl.
    destruct (map_result _ l) as [es|e0]; simpl.
    + split; [discriminate|]. intros (l' & [= <-] & H). apply Hl in H. discriminate.
    + split.
      * intros [= <-]. exists l. split; [reflexivity|]. apply Hl. reflexivity.
      * intros (l' & [= <-] & H). apply Hl in H. congruence.
  - split; [discriminate|]. intros (l' & H & _). discriminate.
Qed.

Lemma pretty_step_raises_iff self error_type messages e :
  build_pretty_step settings self [] error_type messages = Raise e
  <-> entry_raises settings self (error_type, messages) e.
Proof.
  unfold build_pretty_step, entry_raises.
  destruct (String.eqb error_type "non_field_errors").
  { unfold get_non_field_error_entries.
    rewrite <- (map_result_first_to_raise
                  (get_non_field_error_entry settings self)
                  (non_field_message_raises settings self) messages e
                  (non_field_entry_raises_iff self)).
    destruct (map_result _ messages); simpl; split; congruence. }
  destruct (assoc_get (fields self) error_type) as [f|]; [|split; congruence].
  assert (Hleaf :
    (do entries <- get_field_error_entries settings self messages f;
     Ok ([] ++ (Leaf <$> entries))) = Raise e
    <-> first_to_raise (field_message_raises self f) messages e).
  { unfold get_field_error_entries.
    rewrite <- (map_result_first_to_raise
                  (fun m => get_field_error_entry settings self m f)
                  (field_message_raises self f) messages e
                  (field_entry_raises_iff self f)).
    destruct (map_result _ messages); simpl; split; congruence. }
  unfold enters_nested. destruct (as_serializer f) as [ser|]; simpl; [|exact Hleaf].
  destruct (py_contains (initial_data self) error_type) as [[]|e0]; simpl;
    [|exact Hleaf|split; congruence].
  unfold process_sub_serializer, nested_raises.
  destruct (get_sub_serializer_errors self ser error_type) as [[d|l]|e0];
    cbn [bind]; [| |split; congruence].
  - rewrite <- (sub_serializer_errors_raises_iff self d error_type e).
    destruct (process_sub_serializer_errors settings self d error_type); simpl;
      split; congruence.
  - rewrite <- (map_result_first_to_raise
                  (fun d => process_sub_serializer_errors settings self d error_type)
                  (error_dict_raises settings self) l e
                  (fun d e => sub_serializer_errors_raises_iff self d error_type e)).
    destruct (map_result _ l); simpl; split; congruence.
Qed.

Lemma build_pretty_step_append self pretty error_type messages :
  build_pretty_step settings self pretty error_type messages
  = do chunk <- build_pretty_step settings self [] error_type messages;
    Ok (pretty ++ chunk).
Proof.
  unfold build_pretty_step.
  destruct (String.eqb error_type "non_field_errors").
  - destruct (get_non_field_error_entries settings self messages); reflexivity.
  - destruct (assoc_get (fields self) error_type) as [f|]; [|reflexivity].
    destruct (enters_nested self f error_type) as [[ser|]|]; simpl; [| |reflexivity].
    + unfold process_sub_serializer.
      destruct (get_sub_serializer_errors self ser error_type) as [[d|l]|]; simpl;
        [| |reflexivity].
      * destruct (process_sub_serializer_errors settings self d error_type); reflexivity.
      * destruct (map_result _ l); reflexivity.
    + destruct (get_field_error_entries settings self messages f); reflexivity.
Qed.

Lemma pretty_loop_raises_iff self errors : forall pretty e,
  build_pretty_loop settings self pretty errors = Raise e
  <-> first_to_raise (entry_raises settings self) errors e.
Proof.
  induction errors as [|[error_type messages] errors IH]; intros pretty e; simpl.
  - split; [discriminate|]. intros (pre & x & post & H & _). destruct pre; discriminate.
  - rewrite build_pretty_step_append.
    pose proof (pretty_step_raises_iff self error_type messages) as Hstep.
    destruct (build_pretty_step settings self [] error_type messages) as [chunk|e0];
      simpl.
    + rewrite IH. split.
      * intros (pre & x & post & -> & Hpre & Hx).
        exists ((error_type, messages) :: pre), x, post.
        split; [reflexivity|]. split; [|exact Hx].
        intros y e' [->|Hin]%elem_of_cons; [|apply Hpre, Hin].
        intros H. apply Hstep in H. discriminate.
      * intros (pre & x & post & Heq & Hpre & Hx). destruct pre as [|y pre].
        -- simpl in Heq. injection Heq as <- _. apply Hstep in Hx. discriminate.
        -- simpl in Heq. injection Heq as <- ->. exists pre, x, post.
           split; [reflexivity|]. split; [|exact Hx].
           intros y e' Hin. apply Hpre. right. exact Hin.
    + split.
      * intros [= <-]. exists [], (error_type, messages), errors.
        split; [reflexivity|]. split; [|apply Hstep; reflexivity].
        intros y e' Hin. inversion Hin.
      * intros (pre & x & post & Heq & Hpre & Hx). destruct pre as [|y pre].
        -- simpl in Heq. injection Heq as <- _. apply Hstep in Hx. congruence.
        -- simpl in Heq. injection Heq as <- _.
           destruct (Hpre (error_type, messages) e0); [left|].
           apply Hstep. reflexivity.
Qed.

Lemma pretty_errors_raise_iff self errors e :
  build_pretty_errors settings self errors = Raise e
  <-> first_to_raise (entry_raises settings self) errors e.
Proof.
  rewrite <- (pretty_loop_raises_iff self errors [] e).
  unfold build_pretty_errors.
  destruct (build_pretty_loop settings self [] errors) as [[|]|]; simpl;
    split; congruence.
Qed.

(** C6, as the code has it.  Nothing in the classification catches an
    exception, apart from the two validation errors of a validator that
    is run again and from what [get_subclass] raises: the pipeline is not
    total.  [build_pretty_errors] raises exactly when an entry of the raw
    error map raises, and then the exception of the first entry that
    does; it returns exactly when no entry raises.  An entry raises
    ([entry_raises]) when its key names no field of the serializer; when
    the test for the nested branch is put to a payload that is no
    container; in the nested branch, when the nested validation pass
    raises or a non-field message of its result does; and else with the
    first of its messages that raises: a message of the non-field bucket
    that is no key of the store, when the template of the settings does
    not format; a message of a field that is no key of the store, when
    [find_key] raises (the value cannot be read, the kwargs cannot be
    reconstructed, or, no key being found so far, the handler raises or
    the template of the key does not format), or when [find_key] finds
    no key and a validator of the field, or the [validate_<field_name>]
    method when all of them miss, raises as it is run again. *)
Theorem build_pretty_errors_propagates self errors :
  (forall e,
      build_pretty_errors settings self errors = Raise e
      <-> first_to_raise (entry_raises settings self) errors e)
  /\ ((exists pretty, build_pretty_errors settings self errors = Ok pretty)
      <-> forall entry e, entry ∈ errors -> ~ entry_raises settings self entry e).
Proof.
  split; [apply pretty_errors_raise_iff|].
  split.
  - intros [pretty Hok] entry e Hin Hraises.
    apply list_elem_of_split in Hin as (l1 & l2 & ->).
    assert (Hsome : exists x, x ∈ l1 ++ [entry]
                              /\ exists e', entry_raises settings self x e').
    { exists entry. split; [apply elem_of_app; right; left|eauto]. }
    clear Hraises e.
    assert (Hfirst : exists e', first_to_raise (entry_raises settings self)
                                  (l1 ++ entry :: l2) e').
    { replace (l1 ++ entry :: l2) with ((l1 ++ [entry]) ++ l2)
        by (rewrite <- app_assoc; reflexivity).
      revert Hsome. generalize (l1 ++ [entry]) as l. clear.
      induction l as [|x l IH]; intros (y & Hin & e' & Hy); [inversion Hin|].
      destruct (build_pretty_step settings self [] x.1 x.2) as [chunk|e0] eqn:Hx.
      - apply elem_of_cons in Hin as [->|Hin].
        + destruct x. apply pretty_step_raises_iff in Hy. simpl in Hx.
          congruence.
        + destruct IH as (e1 & pre & z & post & Heq & Hpre & Hz); [eauto|].
          exists e1, (x :: pre), z, post. split; [simpl; rewrite Heq; reflexivity|].
          split; [|exact Hz].
          intros w e'' [->|Hw]%elem_of_cons; [|apply Hpre, Hw].
          intros H. destruct x. apply pretty_step_raises_iff in H.
          simpl in Hx. congruence.
      - exists e0, [], x, (l ++ l2). split; [reflexivity|].
        split; [intros w e'' Hw; inversion Hw|].
        destruct x. apply pretty_step_raises_iff. exact Hx. }
    destruct Hfirst as (e' & Hfirst).
    apply pretty_errors_raise_iff in Hfirst. congruence.
  - intros Hnone.
    destruct (build_pretty_errors settings self errors) as [pretty|e] eqn:Hb;
      [eauto|].
    apply pretty_errors_raise_iff in Hb as (pre & x & post & -> & _ & Hx).
    destruct (Hnone x e); [|exact Hx]. apply elem_of_app. right. left.
Qed.

End Propagation.

Lemma build_pretty_errors_propagates_witness :
  first_to_raise (entry_raises Fixtures.the_settings Fixtures.shop)
    [("name", ["Ensure this field has no more than 10 characters."]);
     ("when", ["Datetime value out of range."])]
    (KeyError "timezone")
  /\ (forall entry e,
       entry ∈ [("name", ["Ensure this field has no more than 10 characters."]);
                ("profile", ["Invalid"]);
                ("non_field_errors", ["Out of stock."])] ->
       ~ entry_raises Fixtures.the_settings
           (Fixtures.order
              (PDict [("name", PStr "abcdefghijklmnop"); ("profile", PDict [])]))
           entry e)
  /\ forall entry e,
       entry ∈ [("when", ["This field is required."])] ->
       ~ entry_raises Fixtures.the_settings Fixtures.shop entry e.
Proof.
  split; [|split].
  - apply (proj1 (build_pretty_errors_propagates Fixtures.the_settings Fixtures.shop
                    [("name", ["Ensure this field has no more than 10 characters."]);
                     ("when", ["Datetime value out of range."])])).
    reflexivity.
  - apply (proj2 (build_pretty_errors_propagates Fixtures.the_settings
                    (Fixtures.order
                       (PDict [("name", PStr "abcdefghijklmnop");
                               ("profile", PDict [])]))
                    [("name", ["Ensure this field has no more than 10 characters."]);
                     ("profile", ["Invalid"]);
                     ("non_field_errors", ["Out of stock."])])).
    eexists. reflexivity.
  - apply (proj2 (build_pretty_errors_propagates Fixtures.the_settings Fixtures.shop
                    [("when", ["This field is required."])])).
    eexists. reflexivity.
Defined.

(** C6, as it is stated, does not hold: the raw error map of a
    [DateTimeField] out of range ends the classification in the
    [KeyError] of the template that names a time zone. *)
Lemma build_pretty_errors_raises :
  build_pretty_errors Fixtures.the_settings Fixtures.shop
    [("when", ["Datetime value out of range."])]
  = Raise (KeyError "timezone")
  /\ ~ exists pretty,
        build_pretty_errors Fixtures.the_settings Fixtures.shop
          [("when", ["Datetime value out of range."])] = Ok pretty.
Proof. split; [reflexivity|]. intros [pretty H]. discriminate H. Qed.

(** Two more ways out: a validator that asks for a value that was not
    submitted, and an entry of the raw error map that names no field. *)
Example build_pretty_errors_missing_value :
  build_pretty_errors Fixtures.the_settings
    (set_initial_data (Fixtures.accounts "") (PDict []))
    [("email", ["This address is reserved."])]
  = Raise (KeyError "email").
Proof. reflexivity. Qed.

Example build_pretty_errors_unknown_field :
  build_pretty_errors Fixtures.the_settings Fixtures.shop [("colour", ["Unknown."])]
  = Raise (KeyError "colour").
Proof. reflexivity. Qed.

(** ** More on the reconstruction *)

Section MoreReconstruction.

Implicit Types kwargs : kwargs_t.

Ltac lookup_in_kwargs :=
  repeat (rewrite lookup_insert_ne by discriminate);
  first [ rewrite lookup_insert_eq; reflexivity | apply lookup_empty ].

(** X1. Whatever the branch, the mapping [get_field_kwargs] returns binds
    [data_type] and [input_type] to the type name of the submitted
    value. *)
Theorem get_field_kwargs_type_names self field v kwargs :
  get_field_kwargs self field v = Ok kwargs ->
  kwargs !! "data_type" = Some (PStr (type_name v))
  /\ kwargs !! "input_type" = Some (PStr (type_name v)).
Proof.
  unfold get_field_kwargs.
  repeat match goal with
         | |- context [if in_names ?x ?l then _ else _] => destruct (in_names x l)
         end;
    try (intros [= <-]; split; lookup_in_kwargs).
  - destruct (max_digits field), (decimal_places field);
      intros [= <-]; split; lookup_in_kwargs.
  - destruct (py_get_default _ _ _) as [x|]; [|discriminate]. simpl.
    destruct (py_len x); [|discriminate]. simpl.
    intros [= <-]; split; lookup_in_kwargs.
Qed.

(** X2. [get_field_kwargs] raises only in the file branch, with the
    exception of the [len] of what the data of the parent hold under the
    source of the field; when they hold nothing there, the length is that
    of the empty string, 0. *)
Theorem get_field_kwargs_raises_for_files self field v :
  (forall e, get_field_kwargs self field v = Raise e ->
     file_typed self field = true
     /\ (do submitted <- py_get_default (parent_data field) (source field) (PStr "");
         py_len submitted) = Raise e)
  /\ (file_typed self field = true ->
      forall d, parent_data field = PDict d ->
        assoc_get d (source field) = None ->
        exists kwargs,
          get_field_kwargs self field v = Ok kwargs
          /\ kwargs !! "length" = Some (PInt 0)
          /\ kwargs !! "max_length" = Some (of_option_int (max_length field))).
Proof.
  unfold file_typed, get_field_kwargs. split.
  - intros e.
    repeat match goal with
           | |- context [if in_names ?x ?l then _ else _] =>
               destruct (in_names x l); try discriminate
           end.
    + destruct (max_digits field), (decimal_places field); discriminate.
    + simpl. destruct (py_get_default _ _ _) as [x|]; simpl;
        [|intros [= <-]; auto].
      destruct (py_len x); simpl; [discriminate|]. intros [= <-]. auto.
  - intros H d Hd Hs.
    repeat (apply andb_prop in H as [H ?]).
    repeat match goal with
           | H : negb _ = true |- _ => apply negb_true_iff in H
           end.
    repeat match goal with
           | H : in_names _ _ = _ |- _ => rewrite H; clear H
           end.
    rewrite Hd. simpl. rewrite Hs. simpl.
    eexists. split; [reflexivity|]. split; lookup_in_kwargs.
Qed.

(** X3. The names the mapping binds do not depend on the submitted
    value: two values give kwargs with the same keys. *)
Theorem get_field_kwargs_names_fixed self field v1 v2 kwargs1 kwargs2 :
  get_field_kwargs self field v1 = Ok kwargs1 ->
  get_field_kwargs self field v2 = Ok kwargs2 ->
  same_keys kwargs1 kwargs2.
Proof.
  unfold get_field_kwargs.
  repeat match goal with
         | |- context [if in_names ?x ?l then _ else _] => destruct (in_names x l)
         end;
    try (intros [= <-] [= <-]; intros k;
         rewrite !lookup_insert_is_Some'; reflexivity).
  - destruct (max_digits field), (decimal_places field);
      intros [= <-] [= <-]; intros k;
      rewrite !lookup_insert_is_Some'; reflexivity.
  - destruct (py_get_default _ _ _) as [x|]; [|discriminate]. simpl.
    destruct (py_len x); [|discriminate]. simpl.
    intros [= <-] [= <-]; intros k.
    rewrite !lookup_insert_is_Some'; reflexivity.
Qed.

End MoreReconstruction.

Lemma get_field_kwargs_type_names_witness :
  get_field_kwargs Fixtures.shop Fixtures.tag_field (PList [PStr "a"; PStr "b"])
  = Ok Fixtures.tags_kwargs
  /\ Fixtures.tags_kwargs !! "data_type" = Some (PStr "list")
  /\ Fixtures.tags_kwargs !! "input_type" = Some (PStr "list").
Proof.
  split; [reflexivity|].
  apply (get_field_kwargs_type_names Fixtures.shop Fixtures.tag_field
           (PList [PStr "a"; PStr "b"]) Fixtures.tags_kwargs eq_refl).
Defined.

Lemma get_field_kwargs_raises_for_files_witness :
  file_typed Fixtures.shop MoreFixtures.avatar_field = true
  /\ exists kwargs : kwargs_t,
       get_field_kwargs Fixtures.shop MoreFixtures.avatar_field PNone = Ok kwargs
       /\ kwargs !! "length" = Some (PInt 0)
       /\ kwargs !! "max_length" = Some (PInt 100).
Proof.
  split; [reflexivity|].
  destruct (get_field_kwargs_raises_for_files Fixtures.shop
              MoreFixtures.avatar_field PNone) as [_ H].
  apply (H eq_refl [] eq_refl eq_refl).
Defined.

Lemma get_field_kwargs_names_fixed_witness :
  get_field_kwargs Fixtures.shop Fixtures.tag_field (PList [PStr "a"; PStr "b"])
  = Ok Fixtures.tags_kwargs
  /\ get_field_kwargs Fixtures.shop Fixtures.tag_field (PStr "a")
     = Ok (<["value" := PStr "a"]>
             (<["input_type" := PStr "str"]>
                (<["data_type" := PStr "str"]>
                   (<["pk_value" := PStr "a"]> Fixtures.tags_kwargs))))
  /\ same_keys Fixtures.tags_kwargs
       (<["value" := PStr "a"]>
          (<["input_type" := PStr "str"]>
             (<["data_type" := PStr "str"]>
                (<["pk_value" := PStr "a"]> Fixtures.tags_kwargs)))).
Proof.
  assert (H1 : get_field_kwargs Fixtures.shop Fixtures.tag_field
                 (PList [PStr "a"; PStr "b"]) = Ok Fixtures.tags_kwargs)
    by reflexivity.
  assert (H2 : get_field_kwargs Fixtures.shop Fixtures.tag_field (PStr "a")
               = Ok (<["value" := PStr "a"]>
                       (<["input_type" := PStr "str"]>
                          (<["data_type" := PStr "str"]>
                             (<["pk_value" := PStr "a"]> Fixtures.tags_kwargs)))))
    by reflexivity.
  split; [exact H1|]. split; [exact H2|].
  apply (get_field_kwargs_names_fixed Fixtures.shop Fixtures.tag_field
           _ _ _ _ H1 H2).
Defined.

(** ** More on the template matcher *)

Section MoreMatcher.

Implicit Types kwargs : kwargs_t.

Lemma handler_loop_exact t m (values : list pyval) kwargs :
  (forall v, v ∈ values -> is_ok (format t (<["value" := v]> kwargs)) = true) ->
  handler_loop t m values kwargs
  = Ok (match List.find (element_matches t kwargs m) values with
        | Some v => (true, <["value" := v]> kwargs)
        | None => (false, match last values with
                          | Some v => <["value" := v]> kwargs
                          | None => kwargs
                          end)
        end).
Proof.
  revert kwargs. induction values as [|v values IH]; intros kwargs Hok;
    [reflexivity|].
  simpl. rewrite format_eq_ok by (apply Hok; left).
  fold (element_matches t kwargs m v).
  destruct (element_matches t kwargs m v) eqn:Hv; simpl; [reflexivity|].
  rewrite IH by (intros v' Hv'; rewrite insert_insert_eq; apply Hok; right; exact Hv').
  assert (Hfind : List.find (element_matches t (<["value" := v]> kwargs) m) values
                  = List.find (element_matches t kwargs m) values).
  { clear. induction values as [|v' values IH]; [reflexivity|]. simpl.
    unfold element_matches at 1 3. rewrite insert_insert_eq, IH. reflexivity. }
  rewrite Hfind.
  destruct (List.find (element_matches t kwargs m) values) as [w|].
  - rewrite insert_insert_eq. reflexivity.
  - destruct values as [|v' values']; [reflexivity|].
    change (last (v :: v' :: values')) with (last (v' :: values')).
    destruct (last (v' :: values')) eqn:Hl.
    + rewrite insert_insert_eq. reflexivity.
    + apply last_None in Hl. discriminate.
Qed.

(** X4. When the template of [does_not_exist] formats, the handler
    answers true exactly when some element of the list matches, and it
    stops at the first such element, which it leaves bound to ['value'];
    at a miss the last element is left there, and an empty list leaves
    the kwargs as they were. *)
Theorem handler_stops_at_first_match self field m kwargs t (values : list pyval) :
  assoc_get (error_messages field) "does_not_exist" = Some t ->
  kwargs !! "value" = Some (PList values) ->
  is_ok (format t kwargs) = true ->
  does_not_exist_many_to_many_handler self field m kwargs
  = Ok (match List.find (element_matches t kwargs m) values with
        | Some v => (true, <["value" := v]> kwargs)
        | None => (false, match last values with
                          | Some v => <["value" := v]> kwargs
                          | None => kwargs
                          end)
        end)
  /\ (values = [] ->
      does_not_exist_many_to_many_handler self field m kwargs = Ok (false, kwargs)).
Proof.
  intros Ht Hv Hok.
  assert (Hrun : does_not_exist_many_to_many_handler self field m kwargs
                 = handler_loop t m values kwargs).
  { unfold does_not_exist_many_to_many_handler. rewrite Ht, Hv. reflexivity. }
  split.
  - rewrite Hrun. apply handler_loop_exact.
    intros v _. etransitivity; [|exact Hok]. symmetry. apply format_same_keys.
    eapply same_keys_insert, Hv.
  - intros ->. rewrite Hrun. reflexivity.
Qed.

Lemma find_key_loop_returns_listed_key self field m items kwargs k :
  find_key_loop self field m items kwargs = Ok (Some k) -> k ∈ items.*1.
Proof.
  revert kwargs. induction items as [|[key t] items IH]; intros kwargs; simpl;
    [discriminate|].
  destruct (if String.eqb key "does_not_exist"
               && is_list (default PNone (kwargs !! "value"))
            then does_not_exist_many_to_many_handler self field m kwargs
            else Ok (false, kwargs)) as [[hit kwargs']|]; [|discriminate].
  simpl. destruct hit; [intros [= <-]; left|].
  destruct (format_eq t kwargs' m) as [[]|]; simpl; [intros [= <-]; left| |discriminate].
  intros H. right. eapply IH, H.
Qed.

Lemma declared_keys_unfold field :
  declared_keys field
  = (error_messages field).*1
    ++ match child_relation field with
       | Some child => declared_keys child
       | None => []
       end.
Proof. destruct field as [? ? ? ? [child|] ? ? ? ? ? ? ? ? ? ?]; reflexivity. Qed.

(** X5. A key [find_key] returns is a key the field, or one of its child
    relations, declares. *)
Theorem find_key_returns_declared_key (field : Field) : forall self m name k,
  find_key self field m name = Ok (Some k) ->
  k ∈ declared_keys field.
Proof.
  revert field. fix IH 1. intros field self m name k.
  rewrite find_key_unfold, declared_keys_unfold.
  destruct (reconstructed self field name) as [kwargs|]; [|discriminate]. simpl.
  destruct (find_key_loop self field m (error_messages field) kwargs)
    as [[key|]|] eqn:Hloop; simpl; [| |discriminate].
  - intros [= <-]. apply elem_of_app. left.
    eapply find_key_loop_returns_listed_key, Hloop.
  - destruct field as [? ? ? ? [child|] ? ? ? ? ? ? ? ? ? ?]; simpl in *;
      [|discriminate].
    intros H. apply elem_of_app. right. eapply IH, H.
Qed.

(** X6. Over a payload that is no dictionary [find_key] raises the
    [AttributeError] of the missing [get], and so does the field builder
    for every message that is not in the store. *)
Theorem find_key_needs_dictionary self field m name :
  (forall d, initial_data self <> PDict d) ->
  find_key self field m name = Raise (AttributeError "get")
  /\ forall settings,
       registered_errors self !! m = None ->
       get_field_error_entry settings self m field = Raise (AttributeError "get").
Proof.
  intros Hnd.
  assert (Hget : forall n, py_get (initial_data self) n = Raise (AttributeError "get")).
  { intros n. destruct (initial_data self) eqn:Hd; try reflexivity.
    exfalso. eapply Hnd. reflexivity. }
  assert (Hfind : forall n, find_key self field m n = Raise (AttributeError "get")).
  { intros n. rewrite find_key_unfold. unfold reconstructed. rewrite Hget. reflexivity. }
  split; [apply Hfind|].
  intros settings Hreg. unfold get_field_error_entry. rewrite Hreg, Hfind. reflexivity.
Qed.

Lemma get_field_kwargs_parent_data self field data d v :
  file_typed self field = false ->
  get_field_kwargs (set_initial_data self d) (with_parent_data data field) v
  = get_field_kwargs self field v.
Proof.
  intros Hfile. destruct field. unfold file_typed in Hfile.
  unfold get_field_kwargs. simpl in *.
  repeat match goal with
         | |- context [if in_names ?x ?l then _ else _] =>
             destruct (in_names x l); try reflexivity
         end.
  discriminate.
Qed.

Lemma find_key_loop_parent_data self field data d m items : forall kwargs,
  find_key_loop (set_initial_data self d) (with_parent_data data field) m items kwargs
  = find_key_loop self field m items kwargs.
Proof.
  assert (Hem : error_messages (with_parent_data data field) = error_messages field)
    by (destruct field; reflexivity).
  induction items as [|[k t] items IH]; intros kwargs; [reflexivity|]. simpl.
  unfold does_not_exist_many_to_many_handler. rewrite Hem.
  destruct (if String.eqb k "does_not_exist"
               && is_list (default PNone (kwargs !! "value")) then _ else _)
    as [[hit kw']|]; [|reflexivity].
  simpl. destruct hit; [reflexivity|].
  destruct (format_eq t kw' m) as [[]|]; simpl; [reflexivity| |reflexivity].
  apply IH.
Qed.

Lemma reads_parent_data_unfold self field :
  reads_parent_data self field
  = file_typed self field
    || match child_relation field with
       | Some child => reads_parent_data self child
       | None => false
       end.
Proof. destruct field as [? ? ? ? [child|] ? ? ? ? ? ? ? ? ? ?]; reflexivity. Qed.

(** X7. For [find_key] on a field that takes no file branch, no more
    than its child relations, a name that was not submitted is a name
    submitted with [None], whatever [field.parent.data] gives once the
    payload has changed. *)
Theorem find_key_missing_is_none self field m name d data :
  reads_parent_data self field = false ->
  initial_data self = PDict d ->
  assoc_get d name = None ->
  find_key self field m name
  = find_key (set_initial_data self (PDict ((name, PNone) :: d)))
      (with_parent_data data field) m name.
Proof.
  intros Hreads Hd Hn. revert field Hreads. fix IH 1. intros field Hreads.
  rewrite reads_parent_data_unfold in Hreads.
  apply orb_false_elim in Hreads as [Hfile Hchild].
  rewrite !find_key_unfold.
  assert (Hrec : reconstructed (set_initial_data self (PDict ((name, PNone) :: d)))
                   (with_parent_data data field) name
                 = reconstructed self field name).
  { unfold reconstructed. rewrite Hd. simpl. rewrite Hn, String.eqb_refl. simpl.
    apply get_field_kwargs_parent_data, Hfile. }
  rewrite Hrec. destruct (reconstructed self field name) as [kwargs|]; [|reflexivity].
  simpl.
  assert (Hem : error_messages (with_parent_data data field) = error_messages field)
    by (destruct field; reflexivity).
  rewrite Hem, find_key_loop_parent_data.
  destruct (find_key_loop self field m (error_messages field) kwargs) as [[key|]|];
    simpl; try reflexivity.
  destruct field as [? ? ? ? [child|] ? ? ? ? ? ? ? ? ? ?]; simpl in *; [|reflexivity].
  apply IH, Hchild.
Qed.

End MoreMatcher.

Lemma handler_stops_at_first_match_witness :
  assoc_get (error_messages Fixtures.tag_field) "does_not_exist"
  = Some "Object with {slug_name}={value} does not exist."
  /\ Fixtures.tags_kwargs !! "value" = Some (PList [PStr "a"; PStr "b"])
  /\ does_not_exist_many_to_many_handler Fixtures.shop Fixtures.tag_field
       "Object with slug=a does not exist." Fixtures.tags_kwargs
     = Ok (true, <["value" := PStr "a"]> Fixtures.tags_kwargs).
Proof.
  split; [reflexivity|]. split; [reflexivity|].
  destruct (handler_stops_at_first_match Fixtures.shop Fixtures.tag_field
              "Object with slug=a does not exist." Fixtures.tags_kwargs
              "Object with {slug_name}={value} does not exist."
              [PStr "a"; PStr "b"] eq_refl eq_refl eq_refl) as [H _].
  rewrite H. reflexivity.
Defined.

Lemma find_key_returns_declared_key_witness :
  find_key Fixtures.shop Fixtures.tags_field
    "Object with slug=b does not exist." "tags" = Ok (Some "does_not_exist")
  /\ "does_not_exist" ∈ declared_keys Fixtures.tags_field.
Proof.
  split; [reflexivity|].
  apply (find_key_returns_declared_key Fixtures.tags_field Fixtures.shop
           "Object with slug=b does not exist." "tags" "does_not_exist" eq_refl).
Defined.

Lemma find_key_needs_dictionary_witness :
  find_key (set_initial_data Fixtures.shop (PList [PStr "name"]))
    Fixtures.name_field "This field is required." "name"
  = Raise (AttributeError "get").
Proof.
  apply (find_key_needs_dictionary
           (set_initial_data Fixtures.shop (PList [PStr "name"]))
           Fixtures.name_field "This field is required." "name").
  intros d. discriminate.
Defined.

Lemma find_key_missing_is_none_witness :
  reads_parent_data Fixtures.shop Fixtures.email_field = false
  /\ assoc_get
       [("name", PStr "abcdefghijklmnop"); ("price", PStr "abc");
        ("when", PStr "10000-01-01T00:00:00Z"); ("tags", PList [PStr "a"; PStr "b"])]
       "email" = None
  /\ find_key Fixtures.shop Fixtures.email_field "This field may not be null." "email"
     = find_key
         (set_initial_data Fixtures.shop
            (PDict [("email", PNone); ("name", PStr "abcdefghijklmnop");
                    ("price", PStr "abc"); ("when", PStr "10000-01-01T00:00:00Z");
                    ("tags", PList [PStr "a"; PStr "b"])]))
         (with_parent_data (PDict [("email", PNone)]) Fixtures.email_field)
         "This field may not be null." "email".
Proof.
  split; [reflexivity|]. split; [reflexivity|].
  apply (find_key_missing_is_none Fixtures.shop Fixtures.email_field
           "This field may not be null." "email" _ (PDict [("email", PNone)])
           eq_refl eq_refl eq_refl).
Defined.

(** ** More on the validators and the builders of entries *)

Section MoreValidators.

Variable settings : Settings.

Lemma in_names_Permutation x (l1 l2 : list string) :
  l1 ≡ₚ l2 -> in_names x l1 = in_names x l2.
Proof.
  intros H. unfold in_names. induction H as [|y l1 l2 _ IH|y z l|l1 l2 l3 _ IH1 _ IH2];
    simpl.
  - reflexivity.
  - rewrite IH. reflexivity.
  - destruct (String.eqb x y), (String.eqb x z); reflexivity.
  - congruence.
Qed.

(** X8. [_run_validator] looks at which argument names a validator
    declares, not at their order: the value always comes first and the
    field second. *)
Theorem run_validator_ignores_argument_order self v v' field m :
  v_args v ≡ₚ v_args v' ->
  v_call v = v_call v' ->
  _run_validator self v field m = _run_validator self v' field m
  /\ (in_names "value" (v_args v) = true ->
      in_names "serializer_field" (v_args v) = true ->
      forall x, py_getitem (initial_data self) (field_name field) = Ok x ->
        _run_validator self v field m
        = match v_call v [ArgValue x; ArgField (field_name field)] with
          | Returns => Ok PNone
          | RaisesDjango err_message => Ok (PBool (String.eqb err_message m))
          | RaisesRest detail =>
              match detail with
              | err_message :: _ => Ok (PBool (String.eqb err_message m))
              | [] => Raise IndexError
              end
          | RaisesOther e => Raise e
          end).
Proof.
  intros Hperm Hcall. split.
  - unfold _run_validator.
    rewrite <- (in_names_Permutation "value" _ _ Hperm).
    rewrite <- (in_names_Permutation "serializer_field" _ _ Hperm).
    rewrite Hcall. reflexivity.
  - intros Hv Hf x Hx. unfold _run_validator. rewrite Hv, Hf, Hx. reflexivity.
Qed.

(** X9. When the matcher finds nothing and the first validator of the
    field asks for the value, a field that was not submitted ends the
    field builder in the [KeyError] of its name. *)
Theorem missing_value_raises self field m v rest d key :
  registered_errors self !! m = None ->
  find_key self field m (field_name field) = Ok key ->
  not_key key = true ->
  validators field = v :: rest ->
  in_names "value" (v_args v) = true ->
  initial_data self = PDict d ->
  assoc_get d (field_name field) = None ->
  _run_validator self v field m = Raise (KeyError (field_name field))
  /\ get_field_error_entry settings self m field
     = Raise (KeyError (field_name field)).
Proof.
  intros Hreg Hkey Hnot Hvs Hv Hd Hn.
  assert (Hrun : _run_validator self v field m = Raise (KeyError (field_name field))).
  { unfold _run_validator. rewrite Hv, Hd. simpl. rewrite Hn. reflexivity. }
  split; [exact Hrun|].
  unfold get_field_error_entry. rewrite Hreg, Hkey. simpl. rewrite Hnot.
  unfold find_validator. rewrite Hvs. simpl. rewrite Hrun. reflexivity.
Qed.

(** X10. [find_validator] raises exactly when the first validator that
    does not miss raises something else than the two validation errors
    (or a validation error without a message, or asks for a value that
    was not submitted): the validators after it are not tried. *)
Theorem find_validator_raises_iff self field m e :
  find_validator self field m = Raise e <->
  exists pre v post,
    validators field = pre ++ v :: post
    /\ (forall w, w ∈ pre -> is_miss (_run_validator self w field m))
    /\ _run_validator self v field m = Raise e.
Proof.
  unfold find_validator. generalize (validators field) as vs.
  induction vs as [|w vs IH]; simpl.
  - split; [discriminate|]. intros (pre & v & post & H & _). destruct pre; discriminate.
  - destruct (_run_validator self w field m) as [r|e'] eqn:Hw; simpl.
    + destruct (truthy r) eqn:Hr.
      * split; [discriminate|].
        intros (pre & v & post & Heq & Hpre & Hv). destruct pre as [|w' pre].
        -- simpl in Heq. injection Heq as <- _. congruence.
        -- simpl in Heq. injection Heq as <- _.
           destruct (Hpre w) as (r' & Hr' & Hm); [left|]. congruence.
      * rewrite IH. split.
        -- intros (pre & v & post & -> & Hpre & Hv). exists (w :: pre), v, post.
           split; [reflexivity|]. split; [|exact Hv].
           intros w' [->|Hin]%elem_of_cons; [exists r; auto|auto].
        -- intros (pre & v & post & Heq & Hpre & Hv). destruct pre as [|w' pre].
           ++ simpl in Heq. injection Heq as <- _. congruence.
           ++ simpl in Heq. injection Heq as <- ->. exists pre, v, post.
              split; [reflexivity|]. split; [|exact Hv].
              intros w' Hin. apply Hpre. right. exact Hin.
    + split.
      * intros [= <-]. exists [], w, vs. split; [reflexivity|]. split; [|exact Hw].
        intros w' Hin. inversion Hin.
      * intros (pre & v & post & Heq & Hpre & Hv). destruct pre as [|w' pre].
        -- simpl in Heq. injection Heq as <- _. congruence.
        -- simpl in Heq. injection Heq as <- _.
           destruct (Hpre w) as (r' & Hr' & Hm); [left|]. congruence.
Qed.

(** X11. A code in the table of the serializer that is falsy, as 0 is,
    gives way to the code of the settings for the validator. *)
Theorem falsy_local_code_gives_way self field m v rest c :
  registered_errors self !! m = None ->
  find_key self field m (field_name field) = Ok None ->
  validators field = v :: rest ->
  _run_validator self v field m = Ok (PBool true) ->
  FIELD_VALIDATION_ERRORS self !! v_name v = Some c ->
  truthy c = false ->
  get_field_error_entry settings self m field
  = Ok {| code := dict_get (FRIENDLY_VALIDATOR_ERRORS settings) (v_name v);
          field := Some (field_name field);
          message := m |}.
Proof.
  intros Hreg Hkey Hvs Hrun Hc Hfalsy.
  unfold get_field_error_entry. rewrite Hreg, Hkey. simpl.
  unfold find_validator. rewrite Hvs. simpl. rewrite Hrun. simpl.
  unfold validator_code, py_or. unfold dict_get at 1. rewrite Hc. simpl.
  rewrite Hfalsy. reflexivity.
Qed.

(** X12. The non-field builder raises exactly when the message is not in
    the store and the template of the settings for a payload of the wrong
    type does not format; an entry it builds outside the store has no
    field and carries the message; and a message that is that template,
    formatted with the type name of the payload, gets the [invalid] code
    of the settings, whatever the tables hold for the message itself. *)
Theorem non_field_entry_shape self m :
  (is_ok (get_non_field_error_entry settings self m) = false <->
   registered_errors self !! m = None
   /\ invalid_data_message_ok settings self = false)
  /\ (registered_errors self !! m = None ->
      forall e, get_non_field_error_entry settings self m = Ok e ->
        field e = None /\ message e = m)
  /\ (registered_errors self !! m = None ->
      format (INVALID_DATA_MESSAGE settings)
        {[ "data_type" := PStr (type_name (initial_data self)) ]} = Ok m ->
      get_non_field_error_entry settings self m
      = Ok {| code := dict_get (FRIENDLY_NON_FIELD_ERRORS settings) "invalid";
              field := None; message := m |}).
Proof.
  unfold get_non_field_error_entry, invalid_data_message_ok, format_eq.
  split; [|split].
  - destruct (registered_errors self !! m); simpl.
    + split; [discriminate|]. intros [? _]. discriminate.
    + destruct (format (INVALID_DATA_MESSAGE settings) _) as [s|]; simpl.
      * destruct (String.eqb s m); simpl; split; try discriminate;
          intros [_ ?]; discriminate.
      * split; auto.
  - intros ->. intros e.
    destruct (format (INVALID_DATA_MESSAGE settings) _) as [s|]; simpl;
      [|discriminate].
    destruct (String.eqb s m); intros [= <-]; auto.
  - intros -> ->. simpl. rewrite String.eqb_refl. reflexivity.
Qed.

End MoreValidators.

Lemma run_validator_ignores_argument_order_witness :
  v_args Fixtures.unique_validator ≡ₚ v_args MoreFixtures.swapped_validator
  /\ _run_validator (Fixtures.accounts "taken@example.com")
       MoreFixtures.swapped_validator Fixtures.email_field
       "This field must be unique."
     = Ok (PBool true).
Proof.
  assert (Hperm : v_args Fixtures.unique_validator
                  ≡ₚ v_args MoreFixtures.swapped_validator).
  { simpl. etransitivity; [apply Permutation_swap|].
    etransitivity; [apply Permutation_skip, Permutation_swap|].
    apply Permutation_swap. }
  split; [exact Hperm|].
  destruct (run_validator_ignores_argument_order
              (Fixtures.accounts "taken@example.com")
              Fixtures.unique_validator MoreFixtures.swapped_validator
              Fixtures.email_field "This field must be unique." Hperm eq_refl)
    as [H _].
  rewrite <- H. reflexivity.
Defined.

Lemma missing_value_raises_witness :
  find_key (set_initial_data (Fixtures.accounts "") (PDict []))
    Fixtures.email_field "This address is reserved." "email" = Ok None
  /\ get_field_error_entry Fixtures.the_settings
       (set_initial_data (Fixtures.accounts "") (PDict []))
       "This address is reserved." Fixtures.email_field
     = Raise (KeyError "email").
Proof.
  split; [reflexivity|].
  apply (missing_value_raises Fixtures.the_settings
           (set_initial_data (Fixtures.accounts "") (PDict []))
           Fixtures.email_field "This address is reserved."
           Fixtures.unique_validator [] [] None);
    reflexivity.
Defined.

Lemma falsy_local_code_gives_way_witness :
  FIELD_VALIDATION_ERRORS (MoreFixtures.accounts_zero "taken@example.com")
    !! "UniqueValidator" = Some (PInt 0)
  /\ get_field_error_entry Fixtures.the_settings
       (MoreFixtures.accounts_zero "taken@example.com")
       "This field must be unique." Fixtures.email_field
     = Ok {| code := PInt 3001; field := Some "email";
             message := "This field must be unique." |}.
Proof.
  split; [reflexivity|].
  rewrite (falsy_local_code_gives_way Fixtures.the_settings
             (MoreFixtures.accounts_zero "taken@example.com")
             Fixtures.email_field "This field must be unique."
             Fixtures.unique_validator [] (PInt 0));
    reflexivity.
Defined.

(** ** More on the flattener *)

Section MoreFlattener.

Variable settings : Settings.

Lemma map_result_Forall2_iff {A B} (f : A -> result B) l outs :
  map_result f l = Ok outs <-> Forall2 (fun x y => f x = Ok y) l outs.
Proof.
  split; [|apply map_result_Forall2].
  revert outs. induction l as [|x l IH]; simpl; intros outs.
  - intros [= <-]. constructor.
  - destruct (f x) as [y|] eqn:Hx; [|discriminate]. simpl.
    destruct (map_result f l) as [ys|]; [|discriminate]. simpl.
    intros [= <-]. constructor; auto.
Qed.

(** X13. The two list builders give one entry for each message, in the
    order of the messages, and nothing when one message raises. *)
Theorem entries_follow_messages self field msgs :
  (forall es, get_field_error_entries settings self msgs field = Ok es <->
              Forall2 (fun m e => get_field_error_entry settings self m field = Ok e)
                msgs es)
  /\ (forall es, get_non_field_error_entries settings self msgs = Ok es <->
                 Forall2 (fun m e => get_non_field_error_entry settings self m = Ok e)
                   msgs es)
  /\ (forall pre m post e,
        msgs = pre ++ m :: post ->
        get_field_error_entry settings self m field = Raise e ->
        is_ok (get_field_error_entries settings self msgs field) = false).
Proof.
  split; [|split].
  - intros es. apply map_result_Forall2_iff.
  - intros es. apply map_result_Forall2_iff.
  - intros pre m post e -> Hm. unfold get_field_error_entries.
    induction pre as [|m' pre IH]; simpl.
    + rewrite Hm. reflexivity.
    + destruct (get_field_error_entry settings self m' field); [|reflexivity]. simpl.
      destruct (map_result _ (pre ++ m :: post)); [discriminate|reflexivity].
Qed.

(** X14. What [build_pretty_errors] returns holds no ['non_field_errors']
    key: flattening it never raises, and every entry of the flattened
    list has a field. *)
Theorem flatten_mixin_result self p error_type :
  process_sub_serializer_errors settings self (as_error_dict p) error_type
  = Ok (default_field error_type
          <$> match p with EmptyDict => [] | Envelope _ _ errs => errs end)
  /\ forall out,
       process_sub_serializer_errors settings self (as_error_dict p) error_type
       = Ok out ->
       Forall (fun e => error_field e <> None) out.
Proof.
  assert (H : process_sub_serializer_errors settings self (as_error_dict p) error_type
              = Ok (default_field error_type
                      <$> match p with EmptyDict => [] | Envelope _ _ errs => errs end))
    by (destruct p; reflexivity).
  split; [exact H|]. intros out. rewrite H. intros [= <-].
  apply Forall_fmap, Forall_forall. intros e _. simpl.
  unfold default_field. case_bool_decide as He; [|exact He].
  destruct e; discriminate.
Qed.

(** X15. The entries [process_sub_serializer_errors] builds from the
    ['non_field_errors'] of a nested result, when none is in the store,
    come after the others, one for each message, and keep no field. *)
Theorem nested_non_field_entries_keep_none self d error_type l out :
  ed_non_field_errors d = Some l ->
  (forall m, m ∈ l -> registered_errors self !! m = None) ->
  process_sub_serializer_errors settings self d error_type = Ok out ->
  exists nf,
    out = (default_field error_type <$> default [] (ed_errors d)) ++ (Leaf <$> nf)
    /\ length nf = length l
    /\ Forall2 (fun m e => field e = None /\ message e = m) l nf.
Proof.
  intros Hl Hreg. unfold process_sub_serializer_errors. rewrite Hl.
  destruct (get_non_field_error_entries settings self l) as [nf|] eqn:Hnf;
    [|discriminate]. simpl. intros [= <-].
  exists nf. split; [reflexivity|].
  apply map_result_Forall2_iff in Hnf.
  split; [symmetry; eapply Forall2_length, Hnf|].
  clear Hl. induction Hnf as [|m e l nf Hme _ IH]; constructor.
  - unfold get_non_field_error_entry in Hme. rewrite (Hreg m) in Hme by left.
    destruct (format_eq _ _ m) as [[]|]; simpl in Hme; try discriminate;
      injection Hme as <-; auto.
  - apply IH. intros m' Hm'. apply Hreg. right. exact Hm'.
Qed.

Lemma build_pretty_loop_chunks self errors : forall pretty out,
  build_pretty_loop settings self pretty errors = Ok out <->
  exists chunks,
    Forall2 (fun entry chunk =>
               build_pretty_step settings self [] entry.1 entry.2 = Ok chunk)
      errors chunks
    /\ out = pretty ++ concat chunks.
Proof.
  induction errors as [|[error_type messages] errors IH]; intros pretty out; simpl.
  - split.
    + intros [= <-]. exists []. split; [constructor|]. simpl. rewrite app_nil_r.
      reflexivity.
    + intros (chunks & Hall & ->). inversion Hall. simpl. rewrite app_nil_r.
      reflexivity.
  - rewrite build_pretty_step_append.
    destruct (build_pretty_step settings self [] error_type messages) as [chunk|] eqn:Hc;
      simpl.
    + rewrite IH. split.
      * intros (chunks & Hall & ->). exists (chunk :: chunks).
        split; [constructor; assumption|]. simpl. rewrite app_assoc. reflexivity.
      * intros (chunks & Hall & ->). inversion Hall as [|? c ? cs Hx Hrest]; subst.
        simpl in Hx. rewrite Hc in Hx. injection Hx as <-.
        exists cs. split; [assumption|]. simpl. rewrite app_assoc. reflexivity.
    + split; [discriminate|].
      intros (chunks & Hall & _). inversion Hall as [|? c ? cs Hx Hrest]; subst.
      simpl in Hx. congruence.
Qed.

Lemma build_pretty_errors_chunks self errors p :
  build_pretty_errors settings self errors = Ok p <->
  exists chunks,
    Forall2 (fun entry chunk =>
               build_pretty_step settings self [] entry.1 entry.2 = Ok chunk)
      errors chunks
    /\ p = match concat chunks with
           | [] => EmptyDict
           | pretty => Envelope (VALIDATION_FAILED_CODE settings)
                                (VALIDATION_FAILED_MESSAGE settings) pretty
           end.
Proof.
  unfold build_pretty_errors. split.
  - destruct (build_pretty_loop settings self [] errors) as [out|] eqn:Hloop;
      [|discriminate].
    apply build_pretty_loop_chunks in Hloop as (chunks & Hall & ->). simpl.
    intros H. exists chunks. split; [exact Hall|].
    destruct (concat chunks); injection H as <-; reflexivity.
  - intros (chunks & Hall & ->).
    assert (Hloop : build_pretty_loop settings self [] errors = Ok (concat chunks))
      by (apply build_pretty_loop_chunks; eauto).
    rewrite Hloop. simpl. destruct (concat chunks); reflexivity.
Qed.

(** X16. The entries of the raw error map are classified one by one,
    each without regard to what was collected before it, and what they
    give follows what was collected, in the order of the map; the
    envelope holds that list, and the result is the empty dictionary when
    the list is empty. *)
Theorem build_pretty_errors_in_order self errors :
  (forall pretty out,
      build_pretty_loop settings self pretty errors = Ok out <->
      exists chunks,
        Forall2 (fun entry chunk =>
                   build_pretty_step settings self [] entry.1 entry.2 = Ok chunk)
          errors chunks
        /\ out = pretty ++ concat chunks)
  /\ (forall p,
      build_pretty_errors settings self errors = Ok p <->
      exists chunks,
        Forall2 (fun entry chunk =>
                   build_pretty_step settings self [] entry.1 entry.2 = Ok chunk)
          errors chunks
        /\ p = match concat chunks with
               | [] => EmptyDict
               | pretty => Envelope (VALIDATION_FAILED_CODE settings)
                                    (VALIDATION_FAILED_MESSAGE settings) pretty
               end).
Proof.
  split.
  - intros pretty out. apply build_pretty_loop_chunks.
  - intros p. apply build_pretty_errors_chunks.
Qed.

Lemma build_pretty_step_size self error_type messages chunk :
  build_pretty_step settings self [] error_type messages = Ok chunk ->
  (exists wrapped, chunk = [wrapped] /\ is_wrapper wrapped = true
                   /\ exists f ser, assoc_get (fields self) error_type = Some f
                                    /\ as_serializer f = Some ser)
  \/ (length chunk = length messages /\ Forall (fun e => is_wrapper e = false) chunk).
Proof.
  unfold build_pretty_step.
  destruct (String.eqb error_type "non_field_errors").
  - destruct (get_non_field_error_entries settings self messages) as [es|] eqn:He;
      [|discriminate]. simpl. intros [= <-]. right.
    rewrite length_fmap. split; [eapply map_result_length, He|].
    apply Forall_fmap, Forall_forall. intros; reflexivity.
  - destruct (assoc_get (fields self) error_type) as [f|]; [|discriminate].
    unfold enters_nested.
    destruct (as_serializer f) as [ser|] eqn:Hser; simpl.
    + destruct (py_contains (initial_data self) error_type) as [[]|]; simpl;
        [| |discriminate].
      * unfold process_sub_serializer.
        destruct (get_sub_serializer_errors self ser error_type) as [[d|l]|]; simpl;
          [| |discriminate].
        -- destruct (process_sub_serializer_errors settings self d error_type);
             [|discriminate]. simpl. intros [= <-]. left. eauto 10.
        -- destruct (map_result _ l); [|discriminate]. simpl. intros [= <-].
           left. eauto 10.
      * destruct (get_field_error_entries settings self messages f) as [es|] eqn:He;
          [|discriminate]. simpl. intros [= <-]. right.
        rewrite length_fmap. split; [eapply map_result_length, He|].
        apply Forall_fmap, Forall_forall. intros; reflexivity.
    + destruct (get_field_error_entries settings self messages f) as [es|] eqn:He;
        [|discriminate]. simpl. intros [= <-]. right.
      rewrite length_fmap. split; [eapply map_result_length, He|].
      apply Forall_fmap, Forall_forall. intros; reflexivity.
Qed.

(** X17. The result is the empty dictionary only when every entry of the
    raw error map has an empty list of messages and none is a nested
    serializer that was submitted; otherwise it is the envelope with the
    code and the message of the settings and a list that is not empty. *)
Theorem build_pretty_errors_empty self errors p :
  build_pretty_errors settings self errors = Ok p ->
  match p with
  | EmptyDict => Forall (fun entry => entry.2 = []) errors
  | Envelope c msg pretty =>
      c = VALIDATION_FAILED_CODE settings
      /\ msg = VALIDATION_FAILED_MESSAGE settings
      /\ pretty <> []
  end.
Proof.
  intros H. apply build_pretty_errors_chunks in H as (chunks & Hall & ->).
  destruct (concat chunks) as [|e pretty] eqn:Hc; [|repeat split; discriminate].
  induction Hall as [|[et msgs] chunk errors chunks Hstep _ IH]; [constructor|].
  simpl in Hc. apply app_eq_nil in Hc as [-> Hc]. constructor; [|apply IH, Hc].
  simpl in *. apply build_pretty_step_size in Hstep
    as [(w & Hw & _)|[Hlen _]]; [discriminate|].
  destruct msgs; [reflexivity|discriminate].
Qed.

Lemma build_pretty_step_flat self error_type messages chunk :
  (forall name f, (name, f) ∈ fields self -> as_serializer f = None) ->
  build_pretty_step settings self [] error_type messages = Ok chunk ->
  exists entries,
    chunk = Leaf <$> entries
    /\ Forall2 (fun m e => classify_message settings self error_type m = Ok e)
         messages entries.
Proof.
  intros Hflat. unfold build_pretty_step, classify_message.
  destruct (String.eqb error_type "non_field_errors").
  - destruct (get_non_field_error_entries settings self messages) as [es|] eqn:He;
      [|discriminate]. simpl. intros [= <-]. exists es. split; [reflexivity|].
    apply map_result_Forall2_iff, He.
  - destruct (assoc_get (fields self) error_type) as [f|] eqn:Hf; [|discriminate].
    assert (Hin : (error_type, f) ∈ fields self).
    { clear -Hf. induction (fields self) as [|[k x] l IHl]; [discriminate|].
      simpl in Hf. destruct (String.eqb_spec k error_type) as [->|Hne].
      - injection Hf as ->. left.
      - right. auto. }
    unfold enters_nested. rewrite (Hflat error_type f Hin). simpl.
    destruct (get_field_error_entries settings self messages f) as [es|] eqn:He;
      [|discriminate]. simpl. intros [= <-]. exists es. split; [reflexivity|].
    apply map_result_Forall2_iff, He.
Qed.

(** X18. When no field of the serializer is a nested serializer and the
    values of the raw error map are lists of messages, the result holds
    the leaf entries of the messages and nothing else: for each key of
    the map, in the order of the map, and for each message under it, in
    their order, the entry the builder of entries gives for that message
    under that key; so there is one entry for each message. *)
Theorem build_pretty_errors_flat self errors p :
  (forall name f, (name, f) ∈ fields self -> as_serializer f = None) ->
  build_pretty_errors settings self errors = Ok p ->
  exists chunks : list (list Entry),
    Forall2 (fun entry chunk =>
               Forall2 (fun m e => classify_message settings self entry.1 m = Ok e)
                 entry.2 chunk)
      errors chunks
    /\ match p with EmptyDict => [] | Envelope _ _ pretty => pretty end
       = Leaf <$> concat chunks
    /\ length (concat chunks) = count_messages errors.
Proof.
  intros Hflat H. apply build_pretty_errors_chunks in H as (chunks & Hall & ->).
  assert (Hp : match (match concat chunks with
                      | [] => EmptyDict
                      | pretty => Envelope (VALIDATION_FAILED_CODE settings)
                                    (VALIDATION_FAILED_MESSAGE settings) pretty
                      end) with
               | EmptyDict => []
               | Envelope _ _ pretty => pretty
               end = concat chunks) by (destruct (concat chunks); reflexivity).
  rewrite Hp. clear Hp. unfold count_messages.
  induction Hall as [|[et msgs] chunk errors chunks Hstep _ IH].
  - exists []. split; [constructor|]. split; reflexivity.
  - destruct IH as (ecs & Hecs & Hcat & Hlen).
    simpl in Hstep. apply build_pretty_step_flat in Hstep as (es & -> & Hes);
      [|exact Hflat].
    exists (es :: ecs). split; [constructor; assumption|].
    split.
    + simpl. rewrite Hcat, fmap_app. reflexivity.
    + simpl. rewrite length_app, Hlen. f_equal.
      symmetry. eapply Forall2_length, Hes.
Qed.

End MoreFlattener.

Lemma nested_non_field_entries_keep_none_witness :
  process_sub_serializer_errors Fixtures.the_settings Fixtures.shop
    {| ed_errors := None; ed_non_field_errors := Some ["Passwords differ."] |}
    "profile"
  = Ok [Leaf {| code := PNone; field := None; message := "Passwords differ." |}]
  /\ exists nf,
       [Leaf {| code := PNone; field := None; message := "Passwords differ." |}]
       = [] ++ (Leaf <$> nf)
       /\ length nf = 1%nat.
Proof.
  split; [reflexivity|].
  destruct (nested_non_field_entries_keep_none Fixtures.the_settings Fixtures.shop
              {| ed_errors := None;
                 ed_non_field_errors := Some ["Passwords differ."] |}
              "profile" ["Passwords differ."]
              [Leaf {| code := PNone; field := None;
                       message := "Passwords differ." |}]
              eq_refl) as (nf & Hout & Hlen & _);
    [intros m _; reflexivity|reflexivity|].
  exists nf. split; assumption.
Defined.

Lemma build_pretty_errors_empty_witness :
  build_pretty_errors Fixtures.the_settings Fixtures.shop
    [("name", []); ("non_field_errors", [])] = Ok EmptyDict
  /\ Forall (fun entry : string * list string => entry.2 = [])
       [("name", []); ("non_field_errors", [])].
Proof.
  split; [reflexivity|].
  apply (build_pretty_errors_empty Fixtures.the_settings Fixtures.shop
           [("name", []); ("non_field_errors", [])] EmptyDict eq_refl).
Defined.

Lemma build_pretty_errors_flat_witness :
  build_pretty_errors Fixtures.the_settings Fixtures.shop
    [("name", ["Ensure this field has no more than 10 characters."; "Taken."]);
     ("non_field_errors", ["Out of stock."])]
  = Ok (Envelope (PInt 1000) "Validation Failed"
          [Leaf {| code := PInt 2041; field := Some "name";
                   message := "Ensure this field has no more than 10 characters." |};
           Leaf {| code := PNone; field := Some "name"; message := "Taken." |};
           Leaf {| code := PNone; field := None; message := "Out of stock." |}])
  /\ exists chunks : list (list Entry),
       [Leaf {| code := PInt 2041; field := Some "name";
                message := "Ensure this field has no more than 10 characters." |};
        Leaf {| code := PNone; field := Some "name"; message := "Taken." |};
        Leaf {| code := PNone; field := None; message := "Out of stock." |}]
       = Leaf <$> concat chunks
       /\ length (concat chunks) = 3%nat.
Proof.
  split; [reflexivity|].
  destruct (build_pretty_errors_flat Fixtures.the_settings Fixtures.shop
              [("name", ["Ensure this field has no more than 10 characters."; "Taken."]);
               ("non_field_errors", ["Out of stock."])]
              (Envelope (PInt 1000) "Validation Failed"
                 [Leaf {| code := PInt 2041; field := Some "name";
                          message :=
                            "Ensure this field has no more than 10 characters." |};
                  Leaf {| code := PNone; field := Some "name"; message := "Taken." |};
                  Leaf {| code := PNone; field := None;
                          message := "Out of stock." |}]))
    as (chunks & _ & Hcat & Hlen); [|reflexivity|exists chunks; split; assumption].
  intros name f Hin. apply list_elem_of_In in Hin. simpl in Hin.
  repeat (destruct Hin as [[= <- <-]|Hin]; [reflexivity|]). destruct Hin.
Defined.

(** ** More on the registered-error store *)

Section MoreRegistration.

Variable settings : Settings.

(** X19. [register_error] changes nothing of the serializer but the
    store: a configuration error leaves the serializer as it was, and a
    registration keeps every key the store held. *)
Theorem register_error_frame self m fn ek ec :
  let after := (register_error settings self m fn ek ec).1 in
  field_map after = field_map self
  /\ FIELD_VALIDATION_ERRORS after = FIELD_VALIDATION_ERRORS self
  /\ NON_FIELD_ERRORS after = NON_FIELD_ERRORS self
  /\ initial_data after = initial_data self
  /\ fields after = fields self
  /\ methods after = methods self
  /\ (forall msg, (register_error settings self m fn ek ec).2 = ValueError msg ->
        after = self)
  /\ (forall key e, registered_errors self !! key = Some e ->
        is_Some (registered_errors after !! key)).
Proof.
  intros after. subst after. unfold register_error.
  destruct (match fn with Some _ => _ | None => _ end) as [[c e]|err]; simpl.
  - do 6 (split; [reflexivity|]). split; [discriminate|].
    intros key e' He'. apply lookup_insert_is_Some'. right. eauto.
  - do 6 (split; [reflexivity|]). split; [intros; reflexivity|]. eauto.
Qed.

(** X20. The key is built from the text of the code: an integer code and
    the string of its digits give the same key, the second registration
    takes the place of the first in the store, and the message is
    classified with the second code. *)
Theorem register_error_key_collision self m fn ek1 ek2 z :
  (forall name, fn = Some name -> is_Some (assoc_get (fields self) name)) ->
  let first := register_error settings self m fn ek1 (PInt z) in
  let second := register_error settings first.1 m fn ek2 (PStr (str_of_Z z)) in
  let key := m +:+ "_" +:+ str_of_Z z +:+ "_" +:+ py_str (of_option_str fn) in
  first.2 = ValidationError key
  /\ second.2 = ValidationError key
  /\ registered_errors first.1 !! key
     = Some {| code := PInt z; field := fn; message := m |}
  /\ registered_errors second.1 !! key
     = Some {| code := PStr (str_of_Z z); field := fn; message := m |}
  /\ forall f,
       get_field_error_entry settings second.1 key f
       = Ok {| code := PStr (str_of_Z z); field := fn; message := m |}.
Proof.
  intros Hfn.
  assert (Hreg : forall s' ek (c : pyval),
             fields s' = fields self -> is_none c = false ->
             register_error settings s' m fn ek c
             = (set_registered_errors s'
                  (<[m +:+ "_" +:+ py_str c +:+ "_" +:+ py_str (of_option_str fn)
                     := {| code := c; field := fn; message := m |}]>
                     (registered_errors s')),
                ValidationError
                  (m +:+ "_" +:+ py_str c +:+ "_" +:+ py_str (of_option_str fn)))).
  { intros s' ek c Hf Hc. unfold register_error. destruct fn as [name|]; simpl.
    - rewrite Hf. destruct (Hfn name eq_refl) as [f ->]. simpl.
      rewrite Hc, andb_false_r. simpl. reflexivity.
    - rewrite Hc. reflexivity. }
  intros first second key. subst first second key.
  rewrite (Hreg self ek1 (PInt z) eq_refl eq_refl). simpl.
  rewrite Hreg by reflexivity. simpl.
  repeat (split; [first [reflexivity | apply lookup_insert_eq]|]).
  intros f. unfold get_field_error_entry. simpl.
  rewrite lookup_insert_eq. reflexivity.
Qed.

End MoreRegistration.

Lemma register_error_key_collision_witness :
  (register_error Fixtures.the_settings Fixtures.shop
     "Sold out" (Some "name") None (PInt 7)).2
  = ValidationError "Sold out_7_name"
  /\ (register_error Fixtures.the_settings
        (register_error Fixtures.the_settings Fixtures.shop
           "Sold out" (Some "name") None (PInt 7)).1
        "Sold out" (Some "name") None (PStr "7")).2
     = ValidationError "Sold out_7_name".
Proof.
  destruct (register_error_key_collision Fixtures.the_settings Fixtures.shop
              "Sold out" (Some "name") None None 7)
    as (H1 & H2 & _).
  - intros name [= <-]. eexists. reflexivity.
  - split; [exact H1|exact H2].
Defined.
